(** * Secure AI Agent (main.py): supervisor core

    A shallow embedding of [SecureAICore] (relay start, text analysis,
    process scan, service loop), of the tray commands that act on it and
    of the launcher, followed by the properties of the specification.

    Everything outside the interpreter (psutil, stem, transformers, the
    logging sink, the clock, the socket layer) is an oracle: the outcome
    of each external call is an argument of the function that makes the
    call, and every call and every log record is appended to a trace of
    events, so that "is never invoked" and "is logged" are statements
    about that trace. *)

From Stdlib Require Import String Ascii List ZArith QArith Bool Lia.
From Stdlib Require Import DecimalString Relations.
From Stdlib Require DecimalZ DecimalPos.
Import ListNotations.
Local Open Scope string_scope.
Local Open Scope list_scope.

(** ** Exceptions *)

(** The exception classes the handlers of main.py tell apart.
    [KeyboardInterrupt] derives from [BaseException] only; all the others
    derive from [Exception].  [socket.error] is an alias of [OSError]. *)
Inductive exn_class : Type :=
| NoSuchProcess      (* psutil.NoSuchProcess *)
| AccessDenied       (* psutil.AccessDenied *)
| OSError            (* socket.error, and what a relay launch timeout raises *)
| TypeError
| RuntimeError       (* any other subclass of Exception *)
| KeyboardInterrupt.

Record exn : Type := Exn { exn_class_of : exn_class; str : string }.

(** [except Exception] *)
Definition is_Exception (e : exn) : bool :=
  match exn_class_of e with
  | KeyboardInterrupt => false
  | _ => true
  end.

(** [except (psutil.NoSuchProcess, psutil.AccessDenied)] *)
Definition is_NoSuchProcess_or_AccessDenied (e : exn) : bool :=
  match exn_class_of e with
  | NoSuchProcess | AccessDenied => true
  | _ => false
  end.

(** [except KeyboardInterrupt] *)
Definition is_KeyboardInterrupt (e : exn) : bool :=
  match exn_class_of e with
  | KeyboardInterrupt => true
  | _ => false
  end.

(** [except socket.error] *)
Definition is_socket_error (e : exn) : bool :=
  match exn_class_of e with
  | OSError => true
  | _ => false
  end.

Inductive outcome (A : Type) : Type :=
| Return (a : A)
| Raise (e : exn).
Arguments Return {A} a.
Arguments Raise {A} e.

(** ** Agent state and trace *)

Inductive level : Type := INFO | WARNING | ERROR.

(** Handle of the launched relay: the pid of the child process. *)
Definition Popen : Type := Z.

Inductive event : Type :=
| Log (lvl : level) (msg : string)          (* self.logger.<lvl>(msg) *)
| Print (msg : string)                      (* print(msg) *)
| PrintErr (msg : string)                   (* print(msg, file=sys.stderr) *)
| Sleep (seconds : Z)                       (* time.sleep(seconds) *)
| ProcessIter                               (* psutil.process_iter([...]) *)
| LaunchTor (tor_cmd : string) (timeout : Z)(* line 78: stem.process.launch_tor_with_config(...) *)
| Pipeline (task model : string)            (* transformers.pipeline(task, model=model) *)
| Analyze (text : string)                   (* analyzer(text) *)
| SocketBind (host : string) (port : Z)     (* sock.bind((host, port)) *)
| ShowMessage (title message : string)      (* self.tray.showMessage(...) *)
| GuiExec.                                  (* SecureAIGUI() and gui.app.exec_() *)

(** The two attributes [__init__] gives a [SecureAICore]. *)
Record SecureAICore : Type := mkCore {
  running : bool;
  tor_process : option Popen
}.

Record machine : Type := mkMachine {
  core : SecureAICore;
  events : list event
}.

(** [SecureAICore.__init__]; the log directory and the handlers that
    [setup_logging] installs belong to the logging sink. *)
Definition __init__ : SecureAICore :=
  {| running := true; tor_process := None |}.

Definition emit (ev : event) (m : machine) : machine :=
  {| core := core m; events := events m ++ [ev] |}.

Definition set_running (b : bool) (m : machine) : machine :=
  {| core := {| running := b; tor_process := tor_process (core m) |};
     events := events m |}.

Definition set_tor_process (h : Popen) (m : machine) : machine :=
  {| core := {| running := running (core m); tor_process := Some h |};
     events := events m |}.

(** ** A state monad in which a raised exception keeps the state

    In Python the writes done before a [raise] stay done, so a computation
    returns its outcome together with the machine it leaves. *)
Definition M (A : Type) : Type := machine -> outcome A * machine.

Definition ret {A} (a : A) : M A := fun m => (Return a, m).

Definition raise {A} (e : exn) : M A := fun m => (Raise e, m).

Definition bind {A B} (c : M A) (k : A -> M B) : M B :=
  fun m =>
    match c m with
    | (Return a, m') => k a m'
    | (Raise e, m') => (Raise e, m')
    end.

(** [try: body  except <catches> as e: handler e] *)
Definition try_except {A} (body : M A) (catches : exn -> bool)
    (handler : exn -> M A) : M A :=
  fun m =>
    match body m with
    | (Return a, m') => (Return a, m')
    | (Raise e, m') => if catches e then handler e m' else (Raise e, m')
    end.

(** An external call: recorded, then it returns or raises what the oracle says. *)
Definition call {A} (ev : event) (result : outcome A) : M A :=
  fun m => (result, emit ev m).

Definition log (lvl : level) (msg : string) : M unit :=
  fun m => (Return tt, emit (Log lvl msg) m).

Definition modify (f : machine -> machine) : M unit :=
  fun m => (Return tt, f m).

Definition get_core : M SecureAICore :=
  fun m => (Return (core m), m).

Declare Scope agent_scope.
Delimit Scope agent_scope with agent.
Notation "x <- c ;; k" := (bind c (fun x => k))
  (at level 61, c at next level, right associativity) : agent_scope.
Notation "c ;; k" := (bind c (fun _ => k))
  (at level 61, right associativity) : agent_scope.
Local Open Scope agent_scope.

(** ** Host capabilities (the module-level flags set by the optional imports) *)
Record capabilities : Type := mkCaps {
  AI_READY : bool;
  TOR_READY : bool;
  GUI_READY : bool
}.

(** ** start_tor *)

(** ["tor" if platform.system() != "Windows" else "tor.exe"] *)
Definition tor_cmd (system : string) : string :=
  if String.eqb system "Windows" then "tor.exe" else "tor".

(** [launch] is what evaluating the expression of line 78 gives: a handle,
    or the exception it raises.  The event [LaunchTor] marks that the
    expression was reached.  In main.py as shipped the expression always
    raises, see [stem_process_missing]. *)
Definition start_tor (caps : capabilities) (system : string)
    (launch : outcome Popen) : M bool :=
  if negb (TOR_READY caps) then
    log WARNING "TOR not available - running in unprotected mode" ;;
    ret false
  else
    try_except
      (h <- call (LaunchTor (tor_cmd system) 300) launch ;;
       modify (set_tor_process h) ;;
       log INFO "TOR started successfully" ;;
       ret true)
      is_Exception
      (fun e =>
         log ERROR ("TOR failed: " ++ str e) ;;
         ret false).

(** ** ai_analyze *)

(** What [ai_analyze] returns: the error dict
    [{"status": "error", "message": message}], or whatever the analyzer
    returned (a list of label/score pairs). *)
Inductive analysis : Type :=
| ErrorDict (message : string)
| Classified (labels : list (string * Q)).

(** The classification backend: building the pipeline may raise, and so
    may applying the analyzer it returns. *)
Definition analyzer : Type := string -> outcome (list (string * Q)).

Definition ai_analyze (caps : capabilities) (pipeline : outcome analyzer)
    (text : string) : M analysis :=
  if negb (AI_READY caps) then
    ret (ErrorDict "AI engine not available")
  else
    try_except
      (an <- call (Pipeline "text-classification" "distilbert-base-uncased") pipeline ;;
       labels <- call (Analyze text) (an text) ;;
       ret (Classified labels))
      is_Exception
      (fun e =>
         log ERROR ("AI analysis failed: " ++ str e) ;;
         ret (ErrorDict (str e))).

(** ** security_scan *)

(** [proc.info] for the attributes asked of [process_iter]; psutil reports
    [cpu_percent] as a float, taken here as the rational it denotes, or as
    [None] when it could not read it. *)
Record process_info : Type := mkInfo {
  pid : Z;
  name : string;
  cpu_percent : option Q
}.

(** What [process_iter] does while the [for] loop consumes it: it yields
    process objects, whose inspection returns their info or raises, and
    then stops normally or raises itself. *)
Record enumeration : Type := mkEnum {
  yielded : list (outcome process_info);
  failure : option exn
}.

(** [str(pid)] for an int *)
Definition str_int (z : Z) : string := NilZero.string_of_int (Z.to_int z).

(** [f"High CPU: {info['name']} (PID: {info['pid']})"] *)
Definition high_cpu (info : process_info) : string :=
  "High CPU: " ++ name info ++ " (PID: " ++ str_int (pid info) ++ ")".

Definition no_threats : string := "No immediate threats detected".

(** [c > 90] *)
Definition gt_90 (c : Q) : bool := negb (Qle_bool c (90 # 1)).

(** The body of the inner [try]: reads the info and appends to [threats]. *)
Definition inspect (proc : outcome process_info) (threats : list string)
    : outcome (list string) :=
  match proc with
  | Raise e => Raise e
  | Return info =>
      match cpu_percent info with
      | None =>
          Raise (Exn TypeError
            "'>' not supported between instances of 'NoneType' and 'int'")
      | Some c =>
          if gt_90 c then Return (threats ++ [high_cpu info])
          else Return threats
      end
  end.

(** The [for] loop over the yielded processes.  The local list [threats]
    is threaded through: what was appended before an exception leaves the
    loop is still there when the outer handler runs. *)
Fixpoint scan_processes (procs : list (outcome process_info))
    (threats : list string) : list string * option exn :=
  match procs with
  | [] => (threats, None)
  | proc :: rest =>
      match inspect proc threats with
      | Return threats' => scan_processes rest threats'
      | Raise e =>
          if is_NoSuchProcess_or_AccessDenied e
          then scan_processes rest threats      (* continue *)
          else (threats, Some e)
      end
  end.

(** The whole [for] statement: the loop, then the end of the iterator. *)
Definition scan_for (en : enumeration) (threats : list string)
    : list string * option exn :=
  match scan_processes (yielded en) threats with
  | (threats', Some e) => (threats', Some e)
  | (threats', None) => (threats', failure en)
  end.

(** [threats if threats else ["No immediate threats detected"]] *)
Definition threats_or_default (threats : list string) : list string :=
  match threats with
  | [] => [no_threats]
  | _ :: _ => threats
  end.

Definition security_scan (en : enumeration) : M (list string) :=
  fun m =>
    let m1 := emit ProcessIter m in
    match scan_for en [] with
    | (threats, None) => (Return (threats_or_default threats), m1)
    | (threats, Some e) =>
        if is_Exception e
        then (Return (threats_or_default threats),
              emit (Log ERROR ("Scan failed: " ++ str e)) m1)
        else (Raise e, m1)
    end.

(** *** Process lists whose entries can all be read

    A [ProcessSnapshot] is an entry whose three attributes were read; a
    listing of snapshots is an enumeration in which nothing raises. *)
Record ProcessSnapshot : Type := mkSnap {
  snap_pid : Z;
  snap_name : string;
  cpuPercent : Q
}.

Definition info_of (p : ProcessSnapshot) : process_info :=
  {| pid := snap_pid p; name := snap_name p; cpu_percent := Some (cpuPercent p) |}.

Definition listing (ps : list ProcessSnapshot) : enumeration :=
  {| yielded := map (fun p => Return (info_of p)) ps; failure := None |}.

Definition exceeds_threshold (p : ProcessSnapshot) : bool := gt_90 (cpuPercent p).

Definition finding (p : ProcessSnapshot) : string := high_cpu (info_of p).

(** The entries above the threshold, in enumeration order. *)
Definition findings (ps : list ProcessSnapshot) : list string :=
  map finding (filter exceeds_threshold ps).

(** Every exception the enumeration raises, from an entry or from the
    iterator, is an [Exception] (nobody presses Ctrl+C during the scan). *)
Definition raises_only_Exception (en : enumeration) : bool :=
  forallb (fun proc => match proc with
                       | Return _ => true
                       | Raise e => is_Exception e
                       end) (yielded en)
  && match failure en with
     | None => true
     | Some e => is_Exception e
     end.

(** ** run *)

(** What happens around one pass of the [while] loop: the processes the
    scan sees, what [time.sleep(60)] does (it returns, or a Ctrl+C raises
    [KeyboardInterrupt] out of it), and whether another context (the tray's
    [clean_exit]) cleared [running] at some point during the pass.  The loop
    reads [running] only in its condition, and every write to it stores
    [False], so the moment of that write within the pass does not matter. *)
Record cycle : Type := mkCycle {
  processes : enumeration;
  sleep_raises : option exn;
  stop_requested : bool
}.

Definition newline : string := String (ascii_of_nat 10) EmptyString.

(** ["\n".join(lines)] *)
Definition join_lines (lines : list string) : string :=
  String.concat newline lines.

Definition sleep_outcome (c : cycle) : outcome unit :=
  match sleep_raises c with
  | None => Return tt
  | Some e => Raise e
  end.

(** The body of the [while] loop: the [try] statement. *)
Definition loop_body (c : cycle) : M unit :=
  try_except
    (threats <- security_scan (processes c) ;;
     (if (1 <? length threats)%nat  (* More than just "No threats" message *)
      then log WARNING ("Security Alert:" ++ newline ++ join_lines threats)
      else ret tt) ;;
     call (Sleep 60) (sleep_outcome c))
    is_KeyboardInterrupt
    (fun _ => modify (set_running false)).

(** The write of the other context, if there is one in this pass. *)
Definition other_context (c : cycle) (m : machine) : machine :=
  if stop_requested c then set_running false m else m.

(** A call that loops is observed over finitely many passes: it is [Done]
    with an outcome, or [StillRunning] when the passes are used up. *)
Inductive progress (A : Type) : Type :=
| Done (r : outcome A)
| StillRunning.
Arguments Done {A} r.
Arguments StillRunning {A}.

(** [while self.running: ...] over the passes that are observed. *)
Fixpoint while_running (cycles : list cycle) (m : machine)
    : progress unit * machine :=
  if running (core m) then
    match cycles with
    | [] => (StillRunning, m)
    | c :: rest =>
        match loop_body c m with
        | (Return _, m') => while_running rest (other_context c m')
        | (Raise e, m') => (Done (Raise e), m')
        end
    end
  else (Done (Return tt), m).

Definition run (caps : capabilities) (system : string)
    (launch : outcome Popen) (cycles : list cycle) (m : machine)
    : progress unit * machine :=
  match (log INFO "=== Secure AI Agent Started ===" ;;
         start_tor caps system launch) m with
  | (Raise e, m1) => (Done (Raise e), m1)
  | (Return _, m1) =>
      match while_running cycles m1 with
      | (Done (Return _), m2) =>
          (Done (Return tt), emit (Log INFO "Agent stopped gracefully") m2)
      | (Done (Raise e), m2) => (Done (Raise e), m2)
      | (StillRunning, m2) => (StillRunning, m2)
      end
  end.

(** ** Tray commands of SecureAIGUI that touch the core *)

(** The truth value of [self.core.tor_process], which is what the status
    surface reports as the relay being active. *)
Definition tor_active (c : SecureAICore) : bool :=
  match tor_process c with
  | Some _ => true
  | None => false
  end.

Definition status_lines (caps : capabilities) (c : SecureAICore) : list string :=
  [ ("Agent: " ++ (if running c then "Running" else "Stopped"))%string;
    ("TOR: " ++ (if tor_active c then "Active" else "Inactive"))%string;
    ("AI: " ++ (if AI_READY caps then "Ready" else "Unavailable"))%string ].

Definition show_message (title message : string) : M unit :=
  call (ShowMessage title message) (Return tt).

Definition show_status (caps : capabilities) : M unit :=
  c <- get_core ;;
  show_message "Current Status" (join_lines (status_lines caps c)).

Definition run_scan (en : enumeration) : M unit :=
  threats <- security_scan en ;;
  show_message "System Scan" (join_lines threats).

(** [clean_exit]: the flag write; [self.app.quit()] ends the Qt event loop
    and does not touch the core. *)
Definition clean_exit : M unit := modify (set_running false).

(** ** The rest of the tray *)

(** The handlers the tray menu connects its actions to. *)
Inductive handler : Type :=
| on_show_status
| on_renew_tor
| on_run_analysis
| on_run_scan
| on_clean_exit.

Inductive menu_entry : Type :=
| Action (label : string) (triggered : handler)   (* menu.addAction(label).triggered.connect *)
| Separator.                                       (* menu.addSeparator() *)

(** The menu [setup_tray] builds, top to bottom. *)
Definition setup_tray_menu (caps : capabilities) : list menu_entry :=
  [Action "Security Status" on_show_status; Separator]
  ++ (if TOR_READY caps then [Action "Renew TOR Identity" on_renew_tor] else [])
  ++ (if AI_READY caps then [Action "AI Analysis" on_run_analysis] else [])
  ++ [Action "System Scan" on_run_scan; Separator; Action "Exit" on_clean_exit].

(** The handlers a menu offers. *)
Definition offered (menu : list menu_entry) : list handler :=
  flat_map (fun entry => match entry with
                         | Action _ h => [h]
                         | Separator => []
                         end) menu.

(** [run_analysis].  [dialog] is what [QInputDialog.getText] returned, the
    text and the accepted flag; [render] is [str] on what [ai_analyze]
    returned. *)
Definition run_analysis (render : analysis -> string) (caps : capabilities)
    (pipeline : outcome analyzer) (dialog : string * bool) : M unit :=
  let (text, ok) := dialog in
  if ok && negb (String.eqb text "") then     (* if ok and text: *)
    result <- ai_analyze caps pipeline text ;;
    show_message "Analysis Result" (render result)
  else ret tt.

(** A call to the relay controller: what it returns or raises comes from
    the oracle; these calls leave no event in the trace. *)
Definition controller {A} (result : outcome A) : M A :=
  fun m => (result, m).

(** Looking up a module-level name: unbound names raise [NameError], which
    is an [Exception]. *)
Definition load_name (is_bound : bool) (name : string) : M unit :=
  if is_bound then ret tt
  else raise (Exn RuntimeError ("name '" ++ name ++ "' is not defined")).

(** [from stem.control import Controller] binds [Controller] exactly when
    the stem imports went through, that is when [TOR_READY] is set. *)
Definition Controller_bound (caps : capabilities) : bool := TOR_READY caps.

(** No import and no assignment of main.py binds [Signal]. *)
Definition Signal_bound : bool := false.

(** [renew_tor]: [from_port], [authenticate] and [signal] are what the
    three controller calls do.  The argument [Signal.NEWNYM] is evaluated
    before [ctrl.signal] is called.  Leaving the [with] block closes the
    controller; its [__exit__] lets an exception of the block through. *)
Definition renew_tor (caps : capabilities)
    (from_port authenticate signal : outcome unit) : M unit :=
  try_except
    (load_name (Controller_bound caps) "Controller" ;;
     controller from_port ;;
     controller authenticate ;;
     load_name Signal_bound "Signal" ;;
     controller signal ;;
     show_message "TOR Identity" "Successfully renewed anonymous identity")
    is_Exception
    (fun e => show_message "Error" ("TOR renewal failed: " ++ str e)).

(** ** The relay process next to the agent

    The operating system decides whether a launched relay is still alive;
    [live] lists the pids of the relay processes that are.  Nothing in
    main.py polls or waits for the child. *)
Record system_state : Type := mkSys {
  agent : machine;
  live : list Popen
}.

Definition boot : system_state :=
  {| agent := {| core := __init__; events := [] |}; live := [] |}.

(** The child a call of [start_tor] leaves running. *)
Definition spawned (caps : capabilities) (launch : outcome Popen) : list Popen :=
  if TOR_READY caps then
    match launch with
    | Return h => [h]
    | Raise _ => []
    end
  else [].

Definition after {A} (c : M A) (s : system_state) : system_state :=
  {| agent := snd (c (agent s)); live := live s |}.

(** main.py imports [stem] and [stem.control] and never [stem.process]:
    on line 78 the attribute [stem.process] is looked up first and raises
    this [AttributeError], before any relay is launched. *)
Definition stem_process_missing : exn :=
  Exn RuntimeError "module 'stem' has no attribute 'process'".

(** What the supervisor and its environment can do.  Line 78 as shipped
    never returns a handle: it raises ([stem_process_missing], or the
    [KeyboardInterrupt] of a Ctrl+C), so [start_tor] is only ever run with
    a launch that raises. *)
Inductive step (caps : capabilities) : system_state -> system_state -> Prop :=
| step_start_tor (s : system_state) (system : string) (e : exn) :
    step caps s (after (start_tor caps system (Raise e)) s)
| step_relay_exit (s : system_state) (h : Popen) :
    step caps s {| agent := agent s; live := remove Z.eq_dec h (live s) |}
| step_run_enter (s : system_state) :
    step caps s (after (log INFO "=== Secure AI Agent Started ===") s)
| step_loop_body (s : system_state) (c : cycle) :
    step caps s (after (loop_body c) s)
| step_other_context (s : system_state) (c : cycle) :
    step caps s {| agent := other_context c (agent s); live := live s |}
| step_run_leave (s : system_state) :
    step caps s (after (log INFO "Agent stopped gracefully") s)
| step_security_scan (s : system_state) (en : enumeration) :
    step caps s (after (security_scan en) s)
| step_run_scan (s : system_state) (en : enumeration) :
    step caps s (after (run_scan en) s)
| step_ai_analyze (s : system_state) (pipeline : outcome analyzer) (text : string) :
    step caps s (after (ai_analyze caps pipeline text) s)
| step_run_analysis (s : system_state) (render : analysis -> string)
    (pipeline : outcome analyzer) (dialog : string * bool) :
    step caps s (after (run_analysis render caps pipeline dialog) s)
| step_renew_tor (s : system_state) (from_port authenticate signal : outcome unit) :
    step caps s (after (renew_tor caps from_port authenticate signal) s)
| step_show_status (s : system_state) :
    step caps s (after (show_status caps) s)
| step_clean_exit (s : system_state) :
    step caps s (after clean_exit s).

Definition reachable (caps : capabilities) (s : system_state) : Prop :=
  clos_refl_trans_n1 system_state (step caps) boot s.

(** The relay behind the handle the agent holds is alive. *)
Definition relay_alive (s : system_state) : Prop :=
  exists h, tor_process (core (agent s)) = Some h /\ In h (live s).

(** No relay: no handle is held and no relay process is alive. *)
Definition no_relay (s : system_state) : Prop :=
  tor_process (core (agent s)) = None /\ live s = [].

(** ** Launcher *)

Inductive termination : Type :=
| Exit (status : Z)       (* sys.exit(status), or the end of the script: 0 *)
| Uncaught (e : exn).     (* an exception nobody handled *)

Definition banner : string := "
    ____ ___  ____  ___    _____ ____    ____ ___ 
   / __ `__ \/ __ \/ _ \  / ___// __ \  / __ `__ \
  / / / / / / /_/ /  __/ (__  ) / / / / / / / / /
 /_/ /_/ /_/ .___/\___/ /____/_/ /_/ /_/ /_/ /_/ 
          /_/                                      
    ".

Definition print (msg : string) : M unit :=
  fun m => (Return tt, emit (Print msg) m).

(** One thing that happens while the tray's event loop runs: the thread
    that [setup_tray] started for [core.run] gets on by one step, or the
    user picks an entry of the menu and its handler runs.  A step of the
    thread and a handler are taken one after the other: the thread spends
    its passes asleep, and what a handler does during a pass is placed
    after it. *)
Inductive tray_slot : Type :=
| Background (c : cycle)
| Click_show_status
| Click_renew_tor (from_port authenticate signal : outcome unit)
| Click_run_analysis (pipeline : outcome analyzer) (dialog : string * bool)
| Click_run_scan (en : enumeration)
| Click_exit.

(** What decides a launch: the outcome of the bind; whether [--cli] is in
    [sys.argv]; what the three parts of [SecureAIGUI()] do
    ([QApplication(sys.argv)], [SecureAICore()], whose [setup_logging]
    creates the log directory and opens the log file and so may raise an
    [OSError], and the set-up of the tray); [str] on a result of the
    analysis; what happens while the event loop runs; and what the core
    meets when it runs. *)
Record launch_world : Type := mkLaunch {
  caps_of : capabilities;
  bind_raises : option exn;
  cli_flag : bool;
  qapplication_raises : option exn;
  setup_logging_raises : option string;
  setup_tray_raises : option exn;
  result_str : analysis -> string;
  slots_of : list tray_slot;
  platform_system : string;
  tor_launch : outcome Popen;
  cycles_of : list cycle
}.

(** [SecureAICore()]: what the constructor raises, if anything. *)
Definition SecureAICore_raises (w : launch_world) : option exn :=
  option_map (Exn OSError) (setup_logging_raises w).

(** [cli_main], entered with the events [evs] behind it.  The banner and
    the constructor come before the [try]. *)
Definition cli_main (w : launch_world) (evs : list event)
    : progress unit * machine :=
  let m0 := {| core := __init__; events := evs ++ [Print banner] |} in
  match SecureAICore_raises w with
  | Some e => (Done (Raise e), m0)
  | None =>
      let m1 := emit (Print "[*] Starting Secure AI Agent (Ctrl+C to stop)") m0 in
      match run (caps_of w) (platform_system w) (tor_launch w) (cycles_of w) m1 with
      | (StillRunning, m2) => (StillRunning, m2)
      | (Done (Return _), m2) =>
          (Done (Return tt), emit (Print "[*] Agent stopped") m2)
      | (Done (Raise e), m2) =>
          if is_KeyboardInterrupt e
          then (Done (Return tt),
                emit (Print "[*] Agent stopped")
                  (emit (Print (newline ++ "[!] Shutting down...")) m2))
          else (Done (Raise e), emit (Print "[*] Agent stopped") m2)
      end
  end.

(** The script ends after [cli_main]: status 0, unless an exception is
    still on its way up. *)
Definition script_end (r : progress unit * machine)
    : option termination * list event :=
  match r with
  | (StillRunning, m) => (None, events m)
  | (Done (Return _), m) => (Some (Exit 0), events m)
  | (Done (Raise e), m) => (Some (Uncaught e), events m)
  end.

(** The thread [setup_tray] starts runs [core.run]: its start-up, then its
    passes, then its last record.  An exception out of [run] ends the
    thread and nothing else. *)
Inductive thread : Type := Starting | Looping | Ended.

Definition thread_step (caps : capabilities) (system : string)
    (launch : outcome Popen) (c : cycle) (t : thread) (m : machine)
    : thread * machine :=
  match t with
  | Starting =>
      match (log INFO "=== Secure AI Agent Started ===" ;;
             start_tor caps system launch) m with
      | (Return _, m') => (Looping, m')
      | (Raise _, m') => (Ended, m')
      end
  | Looping =>
      if running (core m) then
        match loop_body c m with
        | (Return _, m') => (Looping, m')
        | (Raise _, m') => (Ended, m')
        end
      else (Ended, emit (Log INFO "Agent stopped gracefully") m)
  | Ended => (Ended, m)
  end.

Definition handler_eqb (a b : handler) : bool :=
  match a, b with
  | on_show_status, on_show_status
  | on_renew_tor, on_renew_tor
  | on_run_analysis, on_run_analysis
  | on_run_scan, on_run_scan
  | on_clean_exit, on_clean_exit => true
  | _, _ => false
  end.

(** Only what the menu offers can be picked. *)
Definition is_offered (caps : capabilities) (h : handler) : bool :=
  existsb (handler_eqb h) (offered (setup_tray_menu caps)).

Definition handler_of (slot : tray_slot) : option handler :=
  match slot with
  | Background _ => None
  | Click_show_status => Some on_show_status
  | Click_renew_tor _ _ _ => Some on_renew_tor
  | Click_run_analysis _ _ => Some on_run_analysis
  | Click_run_scan _ => Some on_run_scan
  | Click_exit => Some on_clean_exit
  end.

(** The handler a pick runs. *)
Definition click (w : launch_world) (slot : tray_slot) : M unit :=
  match slot with
  | Background _ => ret tt
  | Click_show_status => show_status (caps_of w)
  | Click_renew_tor from_port authenticate signal =>
      renew_tor (caps_of w) from_port authenticate signal
  | Click_run_analysis pipeline dialog =>
      run_analysis (result_str w) (caps_of w) pipeline dialog
  | Click_run_scan en => run_scan en
  | Click_exit => clean_exit
  end.

(** [gui.app.exec_()] with the thread of the core beside it.  [clean_exit]
    ends the event loop through [self.app.quit()], which makes [exec_]
    return 0, and [sys.exit] leaves with that status; the thread is a
    daemon and ends with the process.  Nothing in main.py handles an
    exception that comes out of a handler.  [None]: the event loop is
    still running when the slots are used up. *)
Fixpoint exec_ (w : launch_world) (slots : list tray_slot) (t : thread)
    (m : machine) : option termination * machine :=
  match slots with
  | [] => (None, m)
  | slot :: rest =>
      match slot with
      | Background c =>
          let (t', m') := thread_step (caps_of w) (platform_system w)
                            (tor_launch w) c t m in
          exec_ w rest t' m'
      | _ =>
          match handler_of slot with
          | None => exec_ w rest t m
          | Some h =>
              if is_offered (caps_of w) h then
                match click w slot m with
                | (Raise e, m') => (Some (Uncaught e), m')
                | (Return _, m') =>
                    match slot with
                    | Click_exit => (Some (Exit 0), m')
                    | _ => exec_ w rest t m'
                    end
                end
              else exec_ w rest t m
          end
      end
  end.

(** [SecureAIGUI()]: what the constructor raises, if anything.  The thread
    is started by the last statement of [setup_tray], so a constructor that
    raises has not started it. *)
Definition SecureAIGUI_raises (w : launch_world) : option exn :=
  match qapplication_raises w with
  | Some e => Some e
  | None =>
      match SecureAICore_raises w with
      | Some e => Some e
      | None => setup_tray_raises w
      end
  end.

(** The [if __name__ == '__main__':] block: how the process terminates
    ([None] while the agent is still running) and what it has done. *)
Definition main (w : launch_world) : option termination * list event :=
  let evs := [SocketBind "127.0.0.1" 65432] in
  match bind_raises w with
  | Some e =>
      if is_socket_error e
      then (Some (Exit 1),
            evs ++ [PrintErr "Error: Another instance is already running"])
      else (Some (Uncaught e), evs)
  | None =>
      if GUI_READY (caps_of w) && negb (cli_flag w) then
        match SecureAIGUI_raises w with
        | None =>
            let r := exec_ w (slots_of w) Starting
                       {| core := __init__; events := evs ++ [GuiExec] |} in
            (fst r, events (snd r))
        | Some e =>
            if is_Exception e
            then script_end
                   (cli_main w
                      (evs ++ [GuiExec;
                               Print ("GUI failed: " ++ str e ++ " - falling back to CLI")]))
            else (Some (Uncaught e), evs ++ [GuiExec])
        end
      else script_end (cli_main w evs)
  end.

(** A slot that cannot end the event loop: it is not the exit, and no
    Ctrl+C comes out of what its handler calls. *)
Definition no_interrupt {A} (r : outcome A) : bool :=
  match r with
  | Return _ => true
  | Raise e => is_Exception e
  end.

Definition quiet_slot (slot : tray_slot) : bool :=
  match slot with
  | Background _ => true
  | Click_show_status => true
  | Click_renew_tor from_port authenticate _ =>
      no_interrupt from_port && no_interrupt authenticate
  | Click_run_analysis pipeline dialog =>
      match pipeline with
      | Return an => no_interrupt (an (fst dialog))
      | Raise e => is_Exception e
      end
  | Click_run_scan en => raises_only_Exception en
  | Click_exit => false
  end.

(** ** Concrete inputs used in the examples *)

Definition miner : ProcessSnapshot :=
  {| snap_pid := 4242; snap_name := "miner"; cpuPercent := 95 # 1 |}.

Definition shell : ProcessSnapshot :=
  {| snap_pid := 7; snap_name := "sh"; cpuPercent := 10 # 1 |}.

Definition encoder : ProcessSnapshot :=
  {| snap_pid := 31; snap_name := "ffmpeg"; cpuPercent := 901 # 10 |}.

(** The machine right after [SecureAICore()]. *)
Definition fresh_machine : machine := {| core := __init__; events := [] |}.

(** The host process API is unavailable: the iterator raises at once. *)
Definition host_api_down : enumeration :=
  {| yielded := []; failure := Some (Exn OSError "host API unavailable") |}.

(** A pass in which the scan sees [ps], the sleep returns and nobody asks
    to stop. *)
Definition quiet_cycle (ps : list ProcessSnapshot) : cycle :=
  {| processes := listing ps; sleep_raises := None; stop_requested := false |}.

Definition all_ready : capabilities :=
  {| AI_READY := true; TOR_READY := true; GUI_READY := true |}.

Definition launch_timeout : exn :=
  Exn OSError "reached a 300 second timeout without success".

(** ** Frames

    [within P R m m']: the machine [m'] is [m] with events satisfying [P]
    appended and with a core related to the old one by [R].  A computation
    is [framed] when that is all it ever does. *)
Definition within (P : event -> Prop)
    (R : SecureAICore -> SecureAICore -> Prop) (m m' : machine) : Prop :=
  R (core m) (core m')
  /\ exists more, events m' = events m ++ more /\ Forall P more.

Definition framed (P : event -> Prop)
    (R : SecureAICore -> SecureAICore -> Prop) {A} (c : M A) : Prop :=
  forall m, within P R m (snd (c m)).

(** The frame of everything but a successful relay start: the handle is
    not touched and the success record is not logged. *)
Definition not_tor_started (ev : event) : Prop :=
  ev <> Log INFO "TOR started successfully".

Definition same_handle (c c' : SecureAICore) : Prop :=
  tor_process c' = tor_process c.

(** The weakest frame: the trace only grows. *)
Definition any_event (ev : event) : Prop := True.

Definition any_core (c c' : SecureAICore) : Prop := True.

(** [time.sleep] returns, or is interrupted by Ctrl+C. *)
Definition sleep_ok (c : cycle) : bool :=
  match sleep_raises c with
  | None => true
  | Some e => is_KeyboardInterrupt e
  end.

(** The pass ends with [running] false: somebody asked to stop, or Ctrl+C
    interrupted the sleep. *)
Definition stops (c : cycle) : bool :=
  stop_requested c
  || match sleep_raises c with
     | None => false
     | Some e => is_KeyboardInterrupt e
     end.

(** A launch while another instance holds port 65432. *)
Definition second_instance : launch_world :=
  {| caps_of := all_ready;
     bind_raises := Some (Exn OSError "[Errno 98] Address already in use");
     cli_flag := false;
     qapplication_raises := None;
     setup_logging_raises := None;
     setup_tray_raises := None;
     result_str := fun _ => "";
     slots_of := [];
     platform_system := "Linux";
     tor_launch := Return 812%Z;
     cycles_of := [] |}.

(** A launch with [--cli] on a free port: one quiet pass, then a pass in
    which Ctrl+C interrupts the sleep. *)
Definition cli_session : launch_world :=
  {| caps_of := all_ready;
     bind_raises := None;
     cli_flag := true;
     qapplication_raises := None;
     setup_logging_raises := None;
     setup_tray_raises := None;
     result_str := fun _ => "";
     slots_of := [];
     platform_system := "Linux";
     tor_launch := Raise launch_timeout;
     cycles_of := [ quiet_cycle [shell];
                    {| processes := listing [shell];
                       sleep_raises := Some (Exn KeyboardInterrupt "");
                       stop_requested := false |} ] |}.

(** A launch of the tray on a free port: the thread of the core starts
    and makes a pass, the user asks for a scan, then picks the exit. *)
Definition tray_session : launch_world :=
  {| caps_of := all_ready;
     bind_raises := None;
     cli_flag := false;
     qapplication_raises := None;
     setup_logging_raises := None;
     setup_tray_raises := None;
     result_str := fun _ => "";
     slots_of := [ Background (quiet_cycle []);
                   Background (quiet_cycle [shell]);
                   Click_run_scan (listing [miner]);
                   Click_exit;
                   Background (quiet_cycle [shell]) ];
     platform_system := "Linux";
     tor_launch := Raise stem_process_missing;
     cycles_of := [] |}.


(** ** Vocabulary of the further properties *)

(** [info] would be flagged: its percentage was read and is above 90. *)
Definition flagged (info : process_info) : bool :=
  match cpu_percent info with
  | Some c => gt_90 c
  | None => false
  end.

(** The infos of the entries whose inspection returns. *)
Definition inspected (procs : list (outcome process_info)) : list process_info :=
  flat_map (fun proc => match proc with
                        | Return info => [info]
                        | Raise _ => []
                        end) procs.

(** The exception with which the inspection of [proc] ends the [for]
    loop, if it does: one that the inner handler does not catch. *)
Definition ends_scan (proc : outcome process_info) : option exn :=
  match proc with
  | Raise e => if is_NoSuchProcess_or_AccessDenied e then None else Some e
  | Return info =>
      match cpu_percent info with
      | Some _ => None
      | None =>
          Some (Exn TypeError
            "'>' not supported between instances of 'NoneType' and 'int'")
      end
  end.

(** The entries the loop gets through, and the exception of the entry
    that ends it early, if one does. *)
Fixpoint before_failure (procs : list (outcome process_info))
    : list (outcome process_info) * option exn :=
  match procs with
  | [] => ([], None)
  | proc :: rest =>
      match ends_scan proc with
      | Some e => ([], Some e)
      | None =>
          let (passed, ended) := before_failure rest in
          (proc :: passed, ended)
      end
  end.

(** Every entry is either read in full or raises one of the two psutil
    conditions the inner handler skips. *)
Definition read_or_skipped (procs : list (outcome process_info)) : bool :=
  forallb (fun proc => match proc with
                       | Return info => match cpu_percent info with
                                        | Some _ => true
                                        | None => false
                                        end
                       | Raise e => is_NoSuchProcess_or_AccessDenied e
                       end) procs.

(** A pass in which nothing asks the loop to stop: no Ctrl+C during the
    scan or the sleep, no stop request. *)
Definition uneventful (c : cycle) : bool :=
  raises_only_Exception (processes c)
  && match sleep_raises c with
     | None => true
     | Some _ => false
     end
  && negb (stop_requested c).

(** The scans and sleeps of a trace, in order. *)
Definition pacing (evs : list event) : list event :=
  filter (fun ev => match ev with
                    | ProcessIter | Sleep _ => true
                    | _ => false
                    end) evs.

(** The messages a trace shows the user. *)
Definition shown (evs : list event) : list (string * string) :=
  flat_map (fun ev => match ev with
                      | ShowMessage title message => [(title, message)]
                      | _ => []
                      end) evs.

(** Reading a pid back from its decimal rendering. *)
Definition int_of_str (s : string) : option Z :=
  option_map Z.of_int (NilZero.int_of_string s).


(** A computation out of which only a [KeyboardInterrupt] can come. *)
Definition interrupt_only {A} (c : M A) : Prop :=
  forall m e, fst (c m) = Raise e -> is_KeyboardInterrupt e = true.

(** * Properties *)

(** ** Exceptions and the monad *)

Lemma Exception_not_KeyboardInterrupt (e : exn) :
  is_KeyboardInterrupt e = negb (is_Exception e).
Proof.
  unfold is_KeyboardInterrupt, is_Exception.
  destruct (exn_class_of e); reflexivity.
Qed.

Lemma events_emit (ev : event) (m : machine) :
  events (emit ev m) = events m ++ [ev].
Proof. reflexivity. Qed.

(** ** Threat scanner *)

Lemma gt_90_spec (c : Q) : gt_90 c = true <-> (90 # 1 < c)%Q.
Proof.
  unfold gt_90. rewrite negb_true_iff.
  split; intros H.
  - apply Qnot_le_lt. intros Hle. apply Qle_bool_iff in Hle. congruence.
  - destruct (Qle_bool c (90 # 1)) eqn:E; [|reflexivity].
    apply Qle_bool_iff in E. exfalso. exact (Qlt_not_le _ _ H E).
Qed.

Lemma high_cpu_not_sentinel (info : process_info) : high_cpu info <> no_threats.
Proof. unfold high_cpu, no_threats. simpl. discriminate. Qed.

(** The loop over readable entries appends the findings to the
    accumulator and leaves normally. *)
Lemma scan_processes_listing (ps : list ProcessSnapshot) (acc : list string) :
  scan_processes (map (fun p => Return (info_of p)) ps) acc
  = (acc ++ findings ps, None).
Proof.
  revert acc. induction ps as [|p ps IH]; intros acc.
  - unfold findings. simpl. now rewrite app_nil_r.
  - simpl. unfold findings. simpl. fold (exceeds_threshold p).
    destruct (exceeds_threshold p).
    + rewrite IH. simpl. unfold findings, finding. now rewrite <- app_assoc.
    + apply IH.
Qed.

(** An entry whose inspection raises one of the two psutil conditions
    leaves no mark on the loop. *)
Lemma scan_processes_skip (e : exn) (before rest : list (outcome process_info))
    (acc : list string) :
  is_NoSuchProcess_or_AccessDenied e = true ->
  scan_processes (before ++ Raise e :: rest) acc
  = scan_processes (before ++ rest) acc.
Proof.
  intros He. revert acc. induction before as [|p before IH]; intros acc.
  - simpl. now rewrite He.
  - simpl. destruct (inspect p acc) as [acc'|e'].
    + apply IH.
    + destruct (is_NoSuchProcess_or_AccessDenied e'); [apply IH | reflexivity].
Qed.

(** If every exception in the enumeration is an [Exception], so is the one
    that ends the [for] statement, if any. *)
Lemma scan_processes_raises (procs : list (outcome process_info))
    (acc : list string) (e : exn) :
  forallb (fun proc => match proc with
                       | Return _ => true
                       | Raise e => is_Exception e
                       end) procs = true ->
  snd (scan_processes procs acc) = Some e -> is_Exception e = true.
Proof.
  revert acc. induction procs as [|p procs IH]; intros acc Hall Hs.
  - discriminate Hs.
  - simpl in Hall. apply andb_true_iff in Hall. destruct Hall as [Hp Hall].
    simpl in Hs. destruct (inspect p acc) as [acc'|e'] eqn:E.
    + now apply (IH acc').
    + destruct (is_NoSuchProcess_or_AccessDenied e'); [now apply (IH acc)|].
      simpl in Hs. inversion Hs; subst e'.
      unfold inspect in E. destruct p as [info|e0].
      * destruct (cpu_percent info) as [c|].
        -- destruct (gt_90 c); discriminate E.
        -- inversion E. reflexivity.
      * inversion E; subst. exact Hp.
Qed.

Lemma scan_for_raises (en : enumeration) (e : exn) :
  raises_only_Exception en = true ->
  snd (scan_for en []) = Some e -> is_Exception e = true.
Proof.
  unfold raises_only_Exception, scan_for. intros H Hs.
  apply andb_true_iff in H. destruct H as [Hy Hf].
  destruct (scan_processes (yielded en) []) as [t [e'|]] eqn:E.
  - simpl in Hs. inversion Hs; subst e'.
    apply (scan_processes_raises (yielded en) [] e Hy). now rewrite E.
  - simpl in Hs. rewrite Hs in Hf. exact Hf.
Qed.

Lemma threats_or_default_nonempty (threats : list string) :
  threats_or_default threats <> [].
Proof. destruct threats; discriminate. Qed.

Lemma threats_or_default_length (threats : list string) :
  (1 <= length (threats_or_default threats))%nat.
Proof. destruct threats; simpl; lia. Qed.

(** What [security_scan] does when every exception is an [Exception]. *)
Lemma security_scan_returns (en : enumeration) (m : machine) :
  raises_only_Exception en = true ->
  security_scan en m
  = (Return (threats_or_default (fst (scan_for en []))),
     match snd (scan_for en []) with
     | None => emit ProcessIter m
     | Some e => emit (Log ERROR ("Scan failed: " ++ str e)) (emit ProcessIter m)
     end).
Proof.
  intros H. unfold security_scan.
  pose proof (scan_for_raises en) as Hr.
  destruct (scan_for en []) as [t [e|]]; simpl in *; [|reflexivity].
  now rewrite (Hr e H eq_refl).
Qed.

Lemma findings_below (ps : list ProcessSnapshot) :
  (forall p, In p ps -> (cpuPercent p <= 90 # 1)%Q) -> findings ps = [].
Proof.
  unfold findings. induction ps as [|p ps IH]; intros H; [reflexivity|].
  simpl. destruct (exceeds_threshold p) eqn:E.
  - apply gt_90_spec in E.
    exfalso. exact (Qlt_not_le _ _ E (H p (or_introl eq_refl))).
  - apply IH. intros q Hq. apply H. now right.
Qed.

(** One pass of the service loop when nobody interrupts the scan: scan,
    warn if the list has more than one line, sleep. *)
Lemma loop_body_spec (c : cycle) (m : machine) :
  raises_only_Exception (processes c) = true ->
  loop_body c m
  = let threats := threats_or_default (fst (scan_for (processes c) [])) in
    let m1 := match snd (scan_for (processes c) []) with
              | None => emit ProcessIter m
              | Some e => emit (Log ERROR ("Scan failed: " ++ str e))
                            (emit ProcessIter m)
              end in
    let m2 := if (1 <? length threats)%nat
              then emit (Log WARNING
                           ("Security Alert:" ++ newline ++ join_lines threats)) m1
              else m1 in
    let m3 := emit (Sleep 60) m2 in
    match sleep_raises c with
    | None => (Return tt, m3)
    | Some e => if is_KeyboardInterrupt e
                then (Return tt, set_running false m3)
                else (Raise e, m3)
    end.
Proof.
  intros H. unfold loop_body, try_except, bind.
  rewrite (security_scan_returns _ m H). cbv zeta.
  destruct (1 <? length (threats_or_default (fst (scan_for (processes c) []))))%nat;
    unfold log, ret, call, sleep_outcome, modify;
    destruct (sleep_raises c) as [e|]; try reflexivity;
    destruct (is_KeyboardInterrupt e); reflexivity.
Qed.

Lemma listing_raises_only_Exception (ps : list ProcessSnapshot) :
  raises_only_Exception (listing ps) = true.
Proof.
  unfold raises_only_Exception, listing. simpl. rewrite andb_true_r.
  induction ps as [|p ps IH]; [reflexivity | exact IH].
Qed.

Lemma scan_for_listing (ps : list ProcessSnapshot) :
  scan_for (listing ps) [] = (findings ps, None).
Proof.
  unfold scan_for, listing. simpl. now rewrite scan_processes_listing.
Qed.

Example scan_two_hot_one_cold :
  fst (security_scan (listing [miner; shell; encoder]) fresh_machine)
  = Return ["High CPU: miner (PID: 4242)"; "High CPU: ffmpeg (PID: 31)"].
Proof. reflexivity. Qed.

Example scan_exactly_ninety :
  fst (security_scan
         (listing [{| snap_pid := 1; snap_name := "init"; cpuPercent := 90 # 1 |}])
         fresh_machine)
  = Return ["No immediate threats detected"].
Proof. reflexivity. Qed.

(** psutil hands out [None] for an attribute it was denied: the
    comparison then raises [TypeError], which the inner handler does not
    catch, so the outer one ends the scan there. *)
Example scan_cpu_none_ends_scan :
  security_scan
    {| yielded := [Return (info_of miner);
                   Return {| pid := 1; name := "launchd"; cpu_percent := None |};
                   Return (info_of encoder)];
       failure := None |} fresh_machine
  = (Return ["High CPU: miner (PID: 4242)"],
     {| core := __init__;
        events := [ProcessIter;
                   Log ERROR "Scan failed: '>' not supported between instances of 'NoneType' and 'int'"] |}).
Proof. reflexivity. Qed.

(** C1. For every list of process snapshots, [security_scan] returns the
    [High CPU] line of exactly the entries whose CPU percentage is above
    90, in enumeration order; when there is none (the list is empty, or
    every entry is at or below 90) it returns the "no findings" sentinel,
    the one-line list that no finding can be mistaken for. *)
Theorem security_scan_findings (ps : list ProcessSnapshot) (m : machine) :
  security_scan (listing ps) m
  = (Return match filter exceeds_threshold ps with
            | [] => [no_threats]
            | hot => map finding hot
            end,
     emit ProcessIter m)
  /\ (forall p, exceeds_threshold p = true <-> (90 # 1 < cpuPercent p)%Q)
  /\ (forall p, finding p <> no_threats)
  /\ ((forall p, In p ps -> (cpuPercent p <= 90 # 1)%Q) ->
      fst (security_scan (listing ps) m) = Return [no_threats]).
Proof.
  assert (Hscan : security_scan (listing ps) m
                  = (Return (threats_or_default (findings ps)), emit ProcessIter m)).
  { rewrite (security_scan_returns _ m (listing_raises_only_Exception ps)).
    now rewrite scan_for_listing. }
  repeat split.
  - rewrite Hscan. unfold findings.
    destruct (filter exceeds_threshold ps); reflexivity.
  - apply gt_90_spec.
  - apply gt_90_spec.
  - intros p. apply high_cpu_not_sentinel.
  - intros Hlow. rewrite Hscan. now rewrite (findings_below ps Hlow).
Qed.

Lemma security_scan_findings_witness :
  fst (security_scan (listing [shell]) fresh_machine) = Return [no_threats].
Proof.
  apply (security_scan_findings [shell] fresh_machine).
  intros p [Hp|[]]. subst p. simpl. unfold Qle. simpl. lia.
Defined.

(** The [for] loop, told from outside: it appends the lines of the
    flagged entries it gets through, and ends with the exception of the
    first entry the inner handler does not cover. *)
Lemma scan_processes_before_failure (procs : list (outcome process_info))
    (acc : list string) :
  scan_processes procs acc
  = (acc ++ map high_cpu (filter flagged (inspected (fst (before_failure procs)))),
     snd (before_failure procs)).
Proof.
  revert acc. induction procs as [|proc procs IH]; intros acc.
  - simpl. now rewrite app_nil_r.
  - destruct proc as [info|e].
    + cbn [scan_processes before_failure ends_scan inspect].
      destruct (cpu_percent info) as [c|] eqn:Hc.
      * destruct (before_failure procs) as [passed ended] eqn:Hb.
        cbn [fst snd inspected flat_map app filter]. unfold flagged at 1.
        rewrite Hc. specialize (IH (if gt_90 c then acc ++ [high_cpu info] else acc)).
        cbn [fst snd] in IH.
        destruct (gt_90 c); rewrite IH; cbn [map];
          [now rewrite <- app_assoc | reflexivity].
      * cbn. now rewrite app_nil_r.
    + cbn [scan_processes before_failure ends_scan inspect].
      destruct (is_NoSuchProcess_or_AccessDenied e).
      * destruct (before_failure procs) as [passed ended] eqn:Hb.
        cbn [fst snd inspected flat_map app]. apply IH.
      * cbn. now rewrite app_nil_r.
Qed.

(** The inner handler, taken by itself: an entry whose inspection raised
    [NoSuchProcess] or [AccessDenied] would be passed over without a
    trace. *)
Lemma security_scan_skips_unreadable (e : exn)
    (before rest : list (outcome process_info)) (fail : option exn)
    (m : machine) :
  is_NoSuchProcess_or_AccessDenied e = true ->
  security_scan {| yielded := before ++ Raise e :: rest; failure := fail |} m
  = security_scan {| yielded := before ++ rest; failure := fail |} m.
Proof.
  intros He. unfold security_scan, scan_for. simpl.
  now rewrite (scan_processes_skip e before rest [] He).
Qed.

(** An entry the inner handler does not cover ends the [for] statement
    where it stands. *)
Lemma scan_for_ends (proc : outcome process_info) (e : exn)
    (before rest : list (outcome process_info)) (fail : option exn)
    (acc : list string) :
  ends_scan proc = Some e ->
  scan_for {| yielded := before ++ proc :: rest; failure := fail |} acc
  = scan_for {| yielded := before; failure := Some e |} acc.
Proof.
  intros Hends. unfold scan_for. simpl.
  rewrite !scan_processes_before_failure.
  assert (Hb : before_failure (before ++ proc :: rest)
               = (fst (before_failure before),
                  match snd (before_failure before) with
                  | Some early => Some early
                  | None => Some e
                  end)).
  { induction before as [|p before IH]; simpl.
    - now rewrite Hends.
    - destruct (ends_scan p); [reflexivity|].
      rewrite IH. destruct (before_failure before) as [passed ended]. reflexivity. }
  rewrite Hb. simpl.
  destruct (snd (before_failure before)); reflexivity.
Qed.

(** C8, at its failing input.  psutil does not raise for a process whose
    attributes it may not read: [process_iter] hands the entry out with
    [None] in place of the attribute, so the inner handler of lines 114-115
    is not what such an entry meets.  The comparison on line 112 raises
    [TypeError] instead, and the outer handler ends the scan: the scan logs
    [Scan failed], and every entry enumerated after the restricted one is
    lost, whatever its CPU percentage.  The scan returns what it had found
    among the entries before. *)
Theorem access_denied_entry_ends_scan (ps : list ProcessSnapshot)
    (info : process_info) (rest : list (outcome process_info))
    (m : machine) :
  cpu_percent info = None ->
  security_scan
    {| yielded := map (fun p => Return (info_of p)) ps ++ Return info :: rest;
       failure := None |} m
  = (Return match filter exceeds_threshold ps with
            | [] => [no_threats]
            | hot => map finding hot
            end,
     emit (Log ERROR
             "Scan failed: '>' not supported between instances of 'NoneType' and 'int'")
       (emit ProcessIter m)).
Proof.
  intros Hnone. unfold security_scan.
  rewrite (scan_for_ends (Return info)
             (Exn TypeError
                "'>' not supported between instances of 'NoneType' and 'int'")
             (map (fun p => Return (info_of p)) ps) rest None [])
    by (simpl; now rewrite Hnone).
  unfold scan_for. simpl. rewrite scan_processes_listing. simpl.
  unfold findings. destruct (filter exceeds_threshold ps); reflexivity.
Qed.

Lemma access_denied_entry_ends_scan_witness :
  security_scan
    {| yielded := map (fun p => Return (info_of p)) [shell]
                  ++ Return {| pid := 1; name := "launchd"; cpu_percent := None |}
                  :: [Return (info_of miner)];
       failure := None |} fresh_machine
  = (Return [no_threats],
     emit (Log ERROR
             "Scan failed: '>' not supported between instances of 'NoneType' and 'int'")
       (emit ProcessIter fresh_machine)).
Proof.
  exact (access_denied_entry_ends_scan [shell]
           {| pid := 1; name := "launchd"; cpu_percent := None |}
           [Return (info_of miner)] fresh_machine eq_refl).
Defined.

(** C10. [security_scan] never hands its caller an empty list: whatever
    the enumeration does (no entry, entries that raise, an iterator that
    raises), a list it returns has at least one element, and is the single
    sentinel line when the loop flagged no process.  And it does return,
    as long as what the enumeration raises are [Exception]s. *)
Theorem security_scan_never_empty (en : enumeration) (m : machine) :
  (forall threats,
     fst (security_scan en m) = Return threats ->
     (1 <= length threats)%nat
     /\ (fst (scan_for en []) = [] -> threats = [no_threats]))
  /\ (raises_only_Exception en = true ->
      exists threats, fst (security_scan en m) = Return threats).
Proof.
  split.
  - intros threats. unfold security_scan.
    destruct (scan_for en []) as [found [e|]]; simpl.
    + destruct (is_Exception e); simpl; [|discriminate].
      intros H. inversion H; subst. split.
      * apply threats_or_default_length.
      * now intros ->.
    + intros H. inversion H; subst. split.
      * apply threats_or_default_length.
      * now intros ->.
  - intros H. rewrite (security_scan_returns en m H). simpl. eauto.
Qed.

Lemma security_scan_never_empty_witness :
  exists threats,
    fst (security_scan host_api_down fresh_machine) = Return threats
    /\ (1 <= length threats)%nat
    /\ (fst (scan_for host_api_down []) = [] -> threats = [no_threats]).
Proof.
  destruct (proj2 (security_scan_never_empty host_api_down fresh_machine)
              eq_refl) as [threats Hret].
  exists threats. split; [exact Hret|].
  exact (proj1 (security_scan_never_empty host_api_down fresh_machine)
           threats Hret).
Defined.

(** C2, as the specification words it (an empty sequence on a failed
    enumeration), does not hold: with the host process API unavailable the
    scan returns the one-line sentinel list, not the empty list. *)
Lemma security_scan_failure_not_empty :
  fst (security_scan host_api_down fresh_machine) = Return [no_threats]
  /\ fst (security_scan host_api_down fresh_machine) <> Return [].
Proof. split; [reflexivity | discriminate]. Qed.

(** C2, amended. When the enumeration fails with an [Exception],
    [security_scan] does not raise.  It returns the lines of the flagged
    entries it got through before the failure, or the one-line sentinel
    list when there is none (never the empty list), and logs at error level
    the exception that ended the enumeration: that of the first entry the
    inner handler does not cover, else the failure of the iterator.  The
    pass of the service loop that made the scan goes on from there: it logs
    its warning if the list has more than one line, sleeps its 60 seconds
    and ends normally, with the core as it was. *)
Theorem security_scan_failure (en : enumeration) (e : exn) (m : machine) :
  failure en = Some e ->
  raises_only_Exception en = true ->
  let cause := match snd (before_failure (yielded en)) with
               | Some early => early
               | None => e
               end in
  let result := match filter flagged (inspected (fst (before_failure (yielded en)))) with
                | [] => [no_threats]
                | hot => map high_cpu hot
                end in
  let scanned := emit (Log ERROR ("Scan failed: " ++ str cause))
                   (emit ProcessIter m) in
  security_scan en m = (Return result, scanned)
  /\ result <> []
  /\ (forall c, processes c = en -> sleep_raises c = None ->
      loop_body c m
      = (Return tt,
         emit (Sleep 60)
           (if (1 <? length result)%nat
            then emit (Log WARNING
                         ("Security Alert:" ++ newline ++ join_lines result))
                   scanned
            else scanned))).
Proof.
  intros Hf H cause result scanned.
  assert (Hscan : scan_for en []
                  = (map high_cpu
                       (filter flagged (inspected (fst (before_failure (yielded en))))),
                     Some cause)).
  { unfold scan_for. rewrite scan_processes_before_failure. simpl.
    unfold cause. destruct (snd (before_failure (yielded en))); [reflexivity|].
    now rewrite Hf. }
  assert (Hresult : threats_or_default (fst (scan_for en [])) = result).
  { rewrite Hscan. unfold result. simpl.
    destruct (filter flagged (inspected (fst (before_failure (yielded en)))));
      reflexivity. }
  assert (Hsec : security_scan en m = (Return result, scanned)).
  { rewrite (security_scan_returns en m H), Hresult, Hscan. reflexivity. }
  split; [exact Hsec|]. split.
  - rewrite <- Hresult. apply threats_or_default_nonempty.
  - intros c Hen Hs. subst en.
    rewrite (loop_body_spec c m H), Hs, Hresult, Hscan. reflexivity.
Qed.

Lemma security_scan_failure_witness :
  security_scan host_api_down fresh_machine
  = (Return [no_threats],
     emit (Log ERROR "Scan failed: host API unavailable")
       (emit ProcessIter fresh_machine))
  /\ loop_body {| processes := host_api_down; sleep_raises := None;
                  stop_requested := false |} fresh_machine
     = (Return tt,
        emit (Sleep 60)
          (emit (Log ERROR "Scan failed: host API unavailable")
             (emit ProcessIter fresh_machine))).
Proof.
  destruct (security_scan_failure host_api_down
              (Exn OSError "host API unavailable") fresh_machine
              eq_refl eq_refl) as [Hscan [_ Hpass]].
  split; [exact Hscan|].
  exact (Hpass {| processes := host_api_down; sleep_raises := None;
                  stop_requested := false |} eq_refl eq_refl).
Defined.

(** ** Service loop *)

Example two_findings_are_warned :
  events (snd (loop_body (quiet_cycle [miner; encoder]) fresh_machine))
  = [ProcessIter;
     Log WARNING ("Security Alert:" ++ newline ++ "High CPU: miner (PID: 4242)"
                  ++ newline ++ "High CPU: ffmpeg (PID: 31)");
     Sleep 60].
Proof. reflexivity. Qed.

(** C3, at its failing input.  When exactly one process is above the
    threshold the scan returns exactly one finding, and the pass of the
    service loop that makes this scan logs nothing at all: its only events
    are the enumeration and the sleep.  The test [len(threats) > 1] lets a
    single real finding through unreported. *)
Theorem single_finding_not_warned (p : ProcessSnapshot) (m : machine) :
  exceeds_threshold p = true ->
  fst (security_scan (listing [p]) m) = Return [finding p]
  /\ loop_body (quiet_cycle [p]) m
     = (Return tt, emit (Sleep 60) (emit ProcessIter m)).
Proof.
  intros Hp. split.
  - unfold security_scan, scan_for, listing, inspect. simpl.
    fold (exceeds_threshold p). rewrite Hp. reflexivity.
  - rewrite loop_body_spec by apply listing_raises_only_Exception.
    unfold quiet_cycle. simpl processes. rewrite scan_for_listing.
    unfold findings. simpl. rewrite Hp. reflexivity.
Qed.

Lemma single_finding_not_warned_witness :
  fst (security_scan (listing [miner]) fresh_machine)
  = Return ["High CPU: miner (PID: 4242)"]
  /\ events (snd (loop_body (quiet_cycle [miner]) fresh_machine))
     = [ProcessIter; Sleep 60].
Proof.
  destruct (single_finding_not_warned miner fresh_machine eq_refl) as [Hs Hl].
  split; [exact Hs | rewrite Hl; reflexivity].
Defined.

(** ** Classification gateway *)

Example analyze_classifies :
  ai_analyze all_ready (Return (fun _ => Return [("LABEL_1", 7 # 10)]))
    "hello" fresh_machine
  = (Return (Classified [("LABEL_1", 7 # 10)]),
     {| core := __init__;
        events := [Pipeline "text-classification" "distilbert-base-uncased";
                   Analyze "hello"] |}).
Proof. reflexivity. Qed.

(** C4. For every text: with the capability flag false, [ai_analyze]
    returns the error result at once and leaves the machine as it was, so
    the backend is not called whatever it would have done; with the flag
    true, an [Exception] raised by the backend, when the pipeline is built
    or when the analyzer is applied, is caught, logged, and turned into the
    error result that carries its message. *)
Theorem ai_analyze_unavailable (caps : capabilities)
    (pipeline : outcome analyzer) (text : string) (m : machine) :
  (AI_READY caps = false ->
   ai_analyze caps pipeline text m
   = (Return (ErrorDict "AI engine not available"), m))
  /\ (AI_READY caps = true ->
      forall e, is_Exception e = true ->
        (pipeline = Raise e ->
         ai_analyze caps pipeline text m
         = (Return (ErrorDict (str e)),
            emit (Log ERROR ("AI analysis failed: " ++ str e))
              (emit (Pipeline "text-classification" "distilbert-base-uncased") m)))
        /\ (forall an, pipeline = Return an -> an text = Raise e ->
            ai_analyze caps pipeline text m
            = (Return (ErrorDict (str e)),
               emit (Log ERROR ("AI analysis failed: " ++ str e))
                 (emit (Analyze text)
                    (emit (Pipeline "text-classification"
                             "distilbert-base-uncased") m))))).
Proof.
  split.
  - intros Hoff. unfold ai_analyze. now rewrite Hoff.
  - intros Hon e He. unfold ai_analyze. rewrite Hon. simpl negb. cbv iota.
    split.
    + intros ->. unfold try_except, bind, call, log, ret. simpl.
      now rewrite He.
    + intros an -> Han. unfold try_except, bind, call, log, ret. simpl.
      rewrite Han. simpl. now rewrite He.
Qed.

Lemma ai_analyze_unavailable_witness :
  ai_analyze {| AI_READY := false; TOR_READY := true; GUI_READY := true |}
    (Raise (Exn RuntimeError "model not found")) "hello" fresh_machine
  = (Return (ErrorDict "AI engine not available"), fresh_machine)
  /\ ai_analyze all_ready (Raise (Exn RuntimeError "model not found"))
       "hello" fresh_machine
     = (Return (ErrorDict "model not found"),
        {| core := __init__;
           events := [Pipeline "text-classification" "distilbert-base-uncased";
                      Log ERROR "AI analysis failed: model not found"] |}).
Proof.
  split.
  - apply (ai_analyze_unavailable
             {| AI_READY := false; TOR_READY := true; GUI_READY := true |}
             (Raise (Exn RuntimeError "model not found")) "hello" fresh_machine).
    reflexivity.
  - apply (proj2 (ai_analyze_unavailable all_ready
                    (Raise (Exn RuntimeError "model not found")) "hello"
                    fresh_machine) eq_refl
             (Exn RuntimeError "model not found") eq_refl).
    reflexivity.
Defined.

(** ** Anonymity supervisor *)

Example start_tor_success :
  start_tor all_ready "Linux" (Return 812%Z) fresh_machine
  = (Return true,
     {| core := {| running := true; tor_process := Some 812%Z |};
        events := [LaunchTor "tor" 300; Log INFO "TOR started successfully"] |}).
Proof. reflexivity. Qed.

Lemma start_tor_failure_machine (caps : capabilities) (system : string)
    (e : exn) (m : machine) :
  TOR_READY caps = true -> is_Exception e = true ->
  start_tor caps system (Raise e) m
  = (Return false,
     emit (Log ERROR ("TOR failed: " ++ str e))
       (emit (LaunchTor (tor_cmd system) 300) m)).
Proof.
  intros Hr He. unfold start_tor. rewrite Hr. simpl negb. cbv iota.
  unfold try_except, bind, call, log, ret. simpl. now rewrite He.
Qed.

(** C5. When the relay launch times out or fails (stem raises an
    [Exception]), [start_tor] returns [False] instead of raising, logs the
    cause, and the handle [tor_process] that was unset stays unset, so the
    status surface reports the relay inactive.  [run] then enters its scan
    loop on that machine: observed over no pass at all it is still running,
    neither returned nor raised. *)
Theorem start_tor_failure (caps : capabilities) (system : string) (e : exn)
    (m : machine) :
  TOR_READY caps = true ->
  is_Exception e = true ->
  tor_process (core m) = None ->
  running (core m) = true ->
  let m' := snd (start_tor caps system (Raise e) m) in
  fst (start_tor caps system (Raise e) m) = Return false
  /\ tor_process (core m') = None
  /\ tor_active (core m') = false
  /\ events m' = events m ++ [LaunchTor (tor_cmd system) 300;
                              Log ERROR ("TOR failed: " ++ str e)]
  /\ exists m'',
       run caps system (Raise e) [] m = (StillRunning, m'')
       /\ tor_active (core m'') = false
       /\ In (Log ERROR ("TOR failed: " ++ str e)) (events m'').
Proof.
  intros Hr He Hnone Hrun m'. subst m'.
  rewrite (start_tor_failure_machine caps system e m Hr He). simpl.
  unfold tor_active. rewrite Hnone.
  repeat split; try reflexivity.
  - now rewrite <- app_assoc.
  - unfold run, bind, log.
    rewrite (start_tor_failure_machine caps system e _ Hr He).
    simpl. rewrite Hrun.
    eexists. split; [reflexivity|]. simpl. rewrite Hnone.
    split; [reflexivity|]. apply in_or_app. right. now left.
Qed.

Lemma start_tor_failure_witness :
  fst (start_tor all_ready "Linux" (Raise launch_timeout) fresh_machine)
  = Return false
  /\ tor_process
       (core (snd (start_tor all_ready "Linux" (Raise launch_timeout)
                     fresh_machine))) = None.
Proof.
  destruct (start_tor_failure all_ready "Linux" launch_timeout fresh_machine
              eq_refl eq_refl eq_refl eq_refl) as [H1 [H2 _]].
  split; [exact H1 | exact H2].
Defined.

(** ** What an operation may do to the machine

    The combinators of the monad preserve frames, so each operation of the
    agent is framed by the shape of its code. *)
Section Frame.

Variable P : event -> Prop.
Variable R : SecureAICore -> SecureAICore -> Prop.
Hypothesis R_refl : forall c, R c c.
Hypothesis R_trans : forall a b c, R a b -> R b c -> R a c.
Hypothesis R_running :
  forall c b, R c {| running := b; tor_process := tor_process c |}.
Hypothesis P_other :
  forall ev, ev <> Log INFO "TOR started successfully" -> P ev.

Lemma within_refl (m : machine) : within P R m m.
Proof.
  split; [apply R_refl|]. exists []. split; [now rewrite app_nil_r | constructor].
Qed.

Lemma within_trans (m1 m2 m3 : machine) :
  within P R m1 m2 -> within P R m2 m3 -> within P R m1 m3.
Proof.
  intros [HR1 [a [Ha Pa]]] [HR2 [b [Hb Pb]]]. split.
  - exact (R_trans _ _ _ HR1 HR2).
  - exists (a ++ b). split.
    + now rewrite Hb, Ha, app_assoc.
    + apply Forall_app. now split.
Qed.

Lemma within_emit (ev : event) (m : machine) : P ev -> within P R m (emit ev m).
Proof.
  intros Hev. split; [apply R_refl|].
  exists [ev]. split; [reflexivity | now constructor].
Qed.

Lemma within_set_running (b : bool) (m : machine) :
  within P R m (set_running b m).
Proof.
  split; [apply R_running|].
  exists []. split; [simpl; now rewrite app_nil_r | constructor].
Qed.

Lemma framed_ret {A} (a : A) : framed P R (ret a).
Proof. intros m. apply within_refl. Qed.

Lemma framed_bind {A B} (c : M A) (k : A -> M B) :
  framed P R c -> (forall a, framed P R (k a)) -> framed P R (bind c k).
Proof.
  intros Hc Hk m. unfold bind. specialize (Hc m).
  destruct (c m) as [[a|e] m1]; simpl in *.
  - exact (within_trans _ _ _ Hc (Hk a m1)).
  - exact Hc.
Qed.

Lemma framed_try_except {A} (body : M A) (catches : exn -> bool)
    (handler : exn -> M A) :
  framed P R body -> (forall e, framed P R (handler e)) ->
  framed P R (try_except body catches handler).
Proof.
  intros Hb Hh m. unfold try_except. specialize (Hb m).
  destruct (body m) as [[a|e] m1]; simpl in *; [exact Hb|].
  destruct (catches e); [|exact Hb].
  exact (within_trans _ _ _ Hb (Hh e m1)).
Qed.

Lemma framed_call {A} (ev : event) (r : outcome A) : P ev -> framed P R (call ev r).
Proof. intros Hev m. now apply within_emit. Qed.

Lemma framed_log (lvl : level) (msg : string) :
  Log lvl msg <> Log INFO "TOR started successfully" -> framed P R (log lvl msg).
Proof. intros Hne m. apply within_emit. now apply P_other. Qed.

Lemma framed_set_running (b : bool) : framed P R (modify (set_running b)).
Proof. intros m. apply within_set_running. Qed.

Lemma framed_get_core : framed P R get_core.
Proof. intros m. apply within_refl. Qed.

Ltac other_event := apply P_other; discriminate.

Lemma security_scan_framed (en : enumeration) : framed P R (security_scan en).
Proof.
  intros m. unfold security_scan.
  assert (H1 : within P R m (emit ProcessIter m)) by (apply within_emit; other_event).
  destruct (scan_for en []) as [threats [e|]]; simpl; [|exact H1].
  destruct (is_Exception e); simpl; [|exact H1].
  apply (within_trans _ _ _ H1). apply within_emit. other_event.
Qed.

Lemma loop_body_framed (c : cycle) : framed P R (loop_body c).
Proof.
  unfold loop_body. apply framed_try_except.
  - apply framed_bind; [apply security_scan_framed|]. intros threats.
    apply framed_bind.
    + destruct (1 <? length threats)%nat;
        [apply framed_log; discriminate | apply framed_ret].
    + intros _. apply framed_call. other_event.
  - intros _. apply framed_set_running.
Qed.

Lemma other_context_within (c : cycle) (m : machine) :
  within P R m (other_context c m).
Proof.
  unfold other_context. destruct (stop_requested c);
    [apply within_set_running | apply within_refl].
Qed.

Lemma ai_analyze_framed (caps : capabilities) (pipeline : outcome analyzer)
    (text : string) : framed P R (ai_analyze caps pipeline text).
Proof.
  unfold ai_analyze. destruct (negb (AI_READY caps)); [apply framed_ret|].
  apply framed_try_except.
  - apply framed_bind; [apply framed_call; other_event|]. intros an.
    apply framed_bind; [apply framed_call; other_event|]. intros labels.
    apply framed_ret.
  - intros e. apply framed_bind; [apply framed_log; discriminate|].
    intros _. apply framed_ret.
Qed.

Lemma show_status_framed (caps : capabilities) : framed P R (show_status caps).
Proof.
  unfold show_status. apply framed_bind; [apply framed_get_core|].
  intros c. apply framed_call. other_event.
Qed.

Lemma run_scan_framed (en : enumeration) : framed P R (run_scan en).
Proof.
  unfold run_scan. apply framed_bind; [apply security_scan_framed|].
  intros threats. apply framed_call. other_event.
Qed.

(** [start_tor] when no relay comes up: the capability is absent or the
    launch raises. *)
Lemma start_tor_framed_failure (caps : capabilities) (system : string)
    (launch : outcome Popen) :
  spawned caps launch = [] -> framed P R (start_tor caps system launch).
Proof.
  intros Hnone. unfold start_tor, spawned in *.
  destruct (TOR_READY caps); simpl.
  - destruct launch as [h|e]; [discriminate Hnone|].
    apply framed_try_except.
    + intros m. unfold bind, call. simpl. apply within_emit. other_event.
    + intros e'. apply framed_bind; [apply framed_log; discriminate|].
      intros _. apply framed_ret.
  - apply framed_bind; [apply framed_log; discriminate|].
    intros _. apply framed_ret.
Qed.

Lemma while_running_within (cycles : list cycle) (m : machine) :
  within P R m (snd (while_running cycles m)).
Proof.
  revert m. induction cycles as [|c rest IH]; intros m; simpl.
  - destruct (running (core m)); apply within_refl.
  - destruct (running (core m)); [|apply within_refl].
    pose proof (loop_body_framed c m) as Hb.
    destruct (loop_body c m) as [[[]|e] m1]; simpl in *; [|exact Hb].
    apply (within_trans _ _ _ Hb).
    apply (within_trans _ _ _ (other_context_within c m1)). apply IH.
Qed.

End Frame.

(** ** The handlers of the tray *)

Section TrayFrame.

Variable P : event -> Prop.
Variable R : SecureAICore -> SecureAICore -> Prop.
Hypothesis R_refl : forall c, R c c.
Hypothesis R_trans : forall a b c, R a b -> R b c -> R a c.
Hypothesis R_running :
  forall c b, R c {| running := b; tor_process := tor_process c |}.
Hypothesis P_other :
  forall ev, ev <> Log INFO "TOR started successfully" -> P ev.

Lemma show_message_framed (title message : string) :
  framed P R (show_message title message).
Proof. apply (framed_call P R R_refl). apply P_other. discriminate. Qed.

Lemma run_analysis_framed (render : analysis -> string) (caps : capabilities)
    (pipeline : outcome analyzer) (dialog : string * bool) :
  framed P R (run_analysis render caps pipeline dialog).
Proof.
  destruct dialog as [text ok]. unfold run_analysis.
  destruct (ok && negb (text =? ""))%string; [|apply (framed_ret P R R_refl)].
  apply (framed_bind P R R_trans).
  - apply (ai_analyze_framed P R R_refl R_trans P_other).
  - intros result. apply show_message_framed.
Qed.

Lemma renew_tor_framed (caps : capabilities)
    (from_port authenticate signal : outcome unit) :
  framed P R (renew_tor caps from_port authenticate signal).
Proof.
  assert (Hctl : forall A (r : outcome A), framed P R (controller r))
    by (intros A r m; apply (within_refl P R R_refl)).
  assert (Hname : forall b name, framed P R (load_name b name))
    by (intros b name m; unfold load_name; destruct b;
        apply (within_refl P R R_refl)).
  unfold renew_tor. apply (framed_try_except P R R_trans).
  - repeat (apply (framed_bind P R R_trans); [|intros _]);
      first [apply Hname | apply Hctl | apply show_message_framed].
  - intros e. apply show_message_framed.
Qed.

Lemma click_framed (w : launch_world) (slot : tray_slot) :
  framed P R (click w slot).
Proof.
  destruct slot; simpl.
  - apply (framed_ret P R R_refl).
  - apply (show_status_framed P R R_refl R_trans P_other).
  - apply renew_tor_framed.
  - apply run_analysis_framed.
  - apply (run_scan_framed P R R_refl R_trans P_other).
  - intros m. apply (within_set_running P R R_running).
Qed.

End TrayFrame.

(** ** Status surface and relay liveness *)

Lemma same_handle_refl (c : SecureAICore) : same_handle c c.
Proof. reflexivity. Qed.

Lemma same_handle_trans (a b c : SecureAICore) :
  same_handle a b -> same_handle b c -> same_handle a c.
Proof. unfold same_handle. intros H1 H2. now rewrite H2. Qed.

Lemma same_handle_running (c : SecureAICore) (b : bool) :
  same_handle c {| running := b; tor_process := tor_process c |}.
Proof. reflexivity. Qed.

Lemma not_tor_started_other (ev : event) :
  ev <> Log INFO "TOR started successfully" -> not_tor_started ev.
Proof. intros H. exact H. Qed.

(** The side conditions of the frame lemmas at this frame. *)
Ltac handle_frame :=
  first [ exact same_handle_refl | exact same_handle_trans
        | exact same_handle_running | exact not_tor_started_other
        | assumption ].

Lemma start_tor_success_machine (caps : capabilities) (system : string)
    (h : Popen) (m : machine) :
  TOR_READY caps = true ->
  start_tor caps system (Return h) m
  = (Return true,
     emit (Log INFO "TOR started successfully")
       (set_tor_process h (emit (LaunchTor (tor_cmd system) 300) m))).
Proof. intros Hr. unfold start_tor. rewrite Hr. reflexivity. Qed.

Example start_tor_as_shipped :
  start_tor all_ready "Linux" (Raise stem_process_missing) fresh_machine
  = (Return false,
     {| core := __init__;
        events := [LaunchTor "tor" 300;
                   Log ERROR "TOR failed: module 'stem' has no attribute 'process'"] |}).
Proof. reflexivity. Qed.

(** A move that keeps the handle keeps the agent without a relay. *)
Lemma no_relay_within (s : system_state) (m' : machine) :
  no_relay s ->
  within not_tor_started same_handle (agent s) m' ->
  no_relay {| agent := m'; live := live s |}.
Proof.
  intros [Hnone Hlive] [Hsame _]. unfold no_relay, same_handle in *. simpl.
  split; [now rewrite Hsame | exact Hlive].
Qed.

(** Every operation of the supervisor, and the exit of a relay, leaves
    the agent without a relay. *)
Lemma step_preserves_no_relay (caps : capabilities) (s s' : system_state) :
  no_relay s -> step caps s s' -> no_relay s'.
Proof.
  intros Hinv Hstep.
  destruct Hstep as [s system e | s h | s | s c | s c | s | s en | s en
                    | s pipeline text | s render pipeline dialog
                    | s from_port authenticate signal | s | s ];
    try (apply (no_relay_within s _ Hinv)).
  - apply start_tor_framed_failure; try handle_frame.
    unfold spawned. now destruct (TOR_READY caps).
  - destruct Hinv as [Hnone Hlive]. split; [exact Hnone|].
    simpl. now rewrite Hlive.
  - apply (framed_log not_tor_started same_handle); try handle_frame. discriminate.
  - apply loop_body_framed; try handle_frame.
  - apply other_context_within; try handle_frame.
  - apply (framed_log not_tor_started same_handle); try handle_frame. discriminate.
  - apply security_scan_framed; try handle_frame.
  - apply run_scan_framed; try handle_frame.
  - apply ai_analyze_framed; try handle_frame.
  - apply run_analysis_framed; try handle_frame.
  - apply renew_tor_framed; try handle_frame.
  - apply show_status_framed; try handle_frame.
  - apply (framed_set_running not_tor_started same_handle); try handle_frame.
Qed.

Lemma reachable_no_relay (caps : capabilities) (s : system_state) :
  reachable caps s -> no_relay s.
Proof.
  intros Hreach. induction Hreach as [|s1 s2 Hstep Hreach IH].
  - split; reflexivity.
  - exact (step_preserves_no_relay caps s1 s2 IH Hstep).
Qed.

(** Without a relay both sides of the invariant are false. *)
Lemma no_relay_invariant (s : system_state) :
  no_relay s -> (tor_active (core (agent s)) = true <-> relay_alive s).
Proof.
  intros [Hnone Hlive]. unfold tor_active, relay_alive. rewrite Hnone. split.
  - discriminate.
  - intros [h [Hh _]]. discriminate Hh.
Qed.

(** C9. In every state the supervisor reaches, the relay is reported
    active if and only if a handle is held and the process behind it is
    alive, and every operation of the supervisor (the relay start, the
    passes of the loop, the scan, the analysis, the renewal, the status,
    the exit) and the exit of a relay process keep it so.  As main.py is
    shipped both sides are false in every reachable state: line 78 raises
    before a relay is launched, so no handle is ever stored. *)
Theorem reachable_invariant (caps : capabilities) (s : system_state) :
  reachable caps s ->
  (tor_active (core (agent s)) = true <-> relay_alive s)
  /\ tor_process (core (agent s)) = None
  /\ (forall s', step caps s s' ->
        (tor_active (core (agent s')) = true <-> relay_alive s')).
Proof.
  intros Hreach. pose proof (reachable_no_relay caps s Hreach) as Hinv.
  split; [exact (no_relay_invariant s Hinv)|].
  split; [exact (proj1 Hinv)|].
  intros s' Hstep. apply no_relay_invariant.
  exact (step_preserves_no_relay caps s s' Hinv Hstep).
Qed.

Lemma reachable_invariant_witness :
  tor_active
    (core (agent (after (show_status all_ready)
                    (after (start_tor all_ready "Linux"
                              (Raise stem_process_missing)) boot)))) = true
  <-> relay_alive
        (after (show_status all_ready)
           (after (start_tor all_ready "Linux" (Raise stem_process_missing))
              boot)).
Proof.
  refine (proj1 (reachable_invariant all_ready
                   (after (show_status all_ready)
                      (after (start_tor all_ready "Linux"
                                (Raise stem_process_missing)) boot)) _)).
  unfold reachable.
  apply (Relation_Operators.rtn1_trans _ _ _
           (after (start_tor all_ready "Linux" (Raise stem_process_missing))
              boot)).
  - exact (step_show_status all_ready
             (after (start_tor all_ready "Linux" (Raise stem_process_missing))
                boot)).
  - apply (Relation_Operators.rtn1_trans _ _ _ boot).
    + exact (step_start_tor all_ready boot "Linux" stem_process_missing).
    + apply Relation_Operators.rtn1_refl.
Defined.

(** ** Termination of the service loop and the launcher *)

Lemma security_scan_raises_interrupt (en : enumeration) (m : machine) (e : exn) :
  fst (security_scan en m) = Raise e -> is_KeyboardInterrupt e = true.
Proof.
  unfold security_scan. destruct (scan_for en []) as [threats [e'|]]; simpl.
  - destruct (is_Exception e') eqn:E; simpl; [discriminate|].
    intros H. inversion H; subst. rewrite Exception_not_KeyboardInterrupt.
    now rewrite E.
  - discriminate.
Qed.

Lemma start_tor_raises_interrupt (caps : capabilities) (system : string)
    (launch : outcome Popen) (m : machine) (e : exn) :
  fst (start_tor caps system launch m) = Raise e -> is_KeyboardInterrupt e = true.
Proof.
  unfold start_tor. destruct (TOR_READY caps); simpl; [|discriminate].
  unfold try_except, bind, call. simpl. destruct launch as [h|e']; simpl.
  - discriminate.
  - destruct (is_Exception e') eqn:E; simpl; [discriminate|].
    intros H. inversion H; subst. rewrite Exception_not_KeyboardInterrupt.
    now rewrite E.
Qed.

(** A pass whose sleep returns or is interrupted ends normally, and it
    leaves [running] false when it is a pass that stops. *)
Lemma loop_body_sleep_ok (c : cycle) (m : machine) :
  sleep_ok c = true ->
  fst (loop_body c m) = Return tt
  /\ (stops c = true ->
      running (core (other_context c (snd (loop_body c m)))) = false).
Proof.
  intros Hok. unfold loop_body, try_except, bind.
  pose proof (security_scan_raises_interrupt (processes c) m) as Hint.
  destruct (security_scan (processes c) m) as [[threats|e] m1]; simpl in *.
  - unfold sleep_ok, stops, other_context, sleep_outcome, call in *.
    destruct (1 <? length threats)%nat; simpl;
      (destruct (sleep_raises c) as [e|]; simpl;
       [ rewrite Hok; simpl; split; [reflexivity|];
         intros _; destruct (stop_requested c); reflexivity
       | split; [reflexivity|]; rewrite orb_false_r; intros ->; reflexivity ]).
  - rewrite (Hint e eq_refl). simpl. split; [reflexivity|].
    intros _. unfold other_context. destruct (stop_requested c); reflexivity.
Qed.

Lemma while_running_stopped (cycles : list cycle) (m : machine) :
  running (core m) = false -> while_running cycles m = (Done (Return tt), m).
Proof. intros H. destruct cycles; simpl; now rewrite H. Qed.

(** A stop request that lands during a pass ends the loop right after
    that pass: no further scan, no further sleep. *)
Lemma stop_request_ends_loop (c : cycle) (rest : list cycle) (m : machine) :
  running (core m) = true ->
  sleep_ok c = true ->
  stop_requested c = true ->
  while_running (c :: rest) m
  = (Done (Return tt), set_running false (snd (loop_body c m))).
Proof.
  intros Hrun Hok Hstop. simpl. rewrite Hrun.
  destruct (loop_body_sleep_ok c m Hok) as [Hret _].
  destruct (loop_body c m) as [[[]|e] m1]; simpl in *; [|discriminate Hret].
  unfold other_context. rewrite Hstop.
  now rewrite while_running_stopped.
Qed.

(** If every sleep returns or is interrupted and some pass stops, the
    loop ends normally within the observed passes. *)
Lemma while_running_graceful (cycles : list cycle) :
  Forall (fun c => sleep_ok c = true) cycles ->
  Exists (fun c => stops c = true) cycles ->
  forall m, fst (while_running cycles m) = Done (Return tt).
Proof.
  intros Hok Hstop. induction Hstop as [c rest Hc | c rest Hrest IH]; intros m;
    inversion Hok as [|c' rest' Hokc Hokrest]; subst; simpl;
    destruct (running (core m)); try reflexivity;
    destruct (loop_body_sleep_ok c m Hokc) as [Hret Hfalse];
    destruct (loop_body c m) as [[[]|e] m1]; simpl in *; try discriminate Hret.
  - now rewrite (while_running_stopped rest _ (Hfalse Hc)).
  - apply (IH Hokrest).
Qed.

Lemma start_tor_grows (caps : capabilities) (system : string)
    (launch : outcome Popen) (m : machine) :
  within any_event any_core m (snd (start_tor caps system launch m)).
Proof.
  destruct (spawned caps launch) as [|h l] eqn:Hsp.
  - apply start_tor_framed_failure; try (intros; exact I). exact Hsp.
  - unfold spawned in Hsp. destruct (TOR_READY caps) eqn:Hr; [|discriminate].
    destruct launch as [h'|e]; [|discriminate].
    rewrite (start_tor_success_machine caps system h' m Hr).
    split; [exact I|].
    exists [LaunchTor (tor_cmd system) 300; Log INFO "TOR started successfully"].
    split; [simpl; now rewrite <- app_assoc | repeat constructor].
Qed.

(** [run] logs that it started before anything else it does. *)
Lemma run_events (caps : capabilities) (system : string)
    (launch : outcome Popen) (cycles : list cycle) (m : machine) :
  exists more,
    events (snd (run caps system launch cycles m))
    = events m ++ Log INFO "=== Secure AI Agent Started ===" :: more.
Proof.
  unfold run, bind, log.
  pose proof (start_tor_grows caps system launch
                (emit (Log INFO "=== Secure AI Agent Started ===") m)) as Hs.
  destruct (start_tor caps system launch
              (emit (Log INFO "=== Secure AI Agent Started ===") m))
    as [[b|e] m1]; simpl in *.
  - pose proof (while_running_within any_event any_core
                  (fun _ => I) (fun _ _ _ _ _ => I) (fun _ _ => I) (fun _ _ => I)
                  cycles m1) as Hw.
    destruct Hs as [_ [a [Ha _]]]. destruct Hw as [_ [b' [Hb _]]].
    destruct (while_running cycles m1) as [[[[]|e]|] m2]; simpl in *.
    + exists (a ++ b' ++ [Log INFO "Agent stopped gracefully"]).
      rewrite Hb, Ha. now rewrite <- !app_assoc.
    + exists (a ++ b'). rewrite Hb, Ha. now rewrite <- !app_assoc.
    + exists (a ++ b'). rewrite Hb, Ha. now rewrite <- !app_assoc.
  - destruct Hs as [_ [a [Ha _]]]. exists a.
    rewrite Ha, events_emit. now rewrite <- app_assoc.
Qed.

(** Under the same conditions [run] is done: it returned, or the launch
    of the relay was interrupted by Ctrl+C. *)
Lemma run_graceful (caps : capabilities) (system : string)
    (launch : outcome Popen) (cycles : list cycle) (m : machine) :
  Forall (fun c => sleep_ok c = true) cycles ->
  Exists (fun c => stops c = true) cycles ->
  fst (run caps system launch cycles m) = Done (Return tt)
  \/ exists e, fst (run caps system launch cycles m) = Done (Raise e)
               /\ is_KeyboardInterrupt e = true.
Proof.
  intros Hok Hstop. unfold run, bind, log.
  pose proof (start_tor_raises_interrupt caps system launch
                (emit (Log INFO "=== Secure AI Agent Started ===") m)) as Hint.
  destruct (start_tor caps system launch
              (emit (Log INFO "=== Secure AI Agent Started ===") m))
    as [[b|e] m1]; simpl in *.
  - pose proof (while_running_graceful cycles Hok Hstop m1) as Hw.
    destruct (while_running cycles m1) as [[[[]|e]|] m2]; simpl in *;
      try discriminate Hw. now left.
  - right. exists e. split; [reflexivity | now apply Hint].
Qed.

Lemma cli_main_graceful (w : launch_world) (evs : list event) :
  setup_logging_raises w = None ->
  Forall (fun c => sleep_ok c = true) (cycles_of w) ->
  Exists (fun c => stops c = true) (cycles_of w) ->
  exists more,
    script_end (cli_main w evs)
    = (Some (Exit 0),
       evs ++ [Print banner;
               Print "[*] Starting Secure AI Agent (Ctrl+C to stop)";
               Log INFO "=== Secure AI Agent Started ==="] ++ more).
Proof.
  intros Hinit Hok Hstop. unfold cli_main, SecureAICore_raises.
  rewrite Hinit. cbn [option_map].
  set (m1 := emit _ _).
  destruct (run_events (caps_of w) (platform_system w) (tor_launch w)
              (cycles_of w) m1) as [more Hev].
  destruct (run_graceful (caps_of w) (platform_system w) (tor_launch w)
              (cycles_of w) m1 Hok Hstop) as [Hr | [e [Hr He]]];
    destruct (run (caps_of w) (platform_system w) (tor_launch w) (cycles_of w) m1)
      as [r m2]; simpl in Hr, Hev; subst r.
  - exists (more ++ [Print "[*] Agent stopped"]). simpl. rewrite Hev.
    unfold m1. simpl. now rewrite <- !app_assoc.
  - rewrite He. exists (more ++ [Print (newline ++ "[!] Shutting down...");
                                 Print "[*] Agent stopped"]).
    simpl. rewrite Hev. unfold m1. simpl. now rewrite <- !app_assoc.
Qed.

Example cli_session_trace :
  main cli_session
  = (Some (Exit 0),
     [SocketBind "127.0.0.1" 65432;
      Print banner;
      Print "[*] Starting Secure AI Agent (Ctrl+C to stop)";
      Log INFO "=== Secure AI Agent Started ===";
      LaunchTor "tor" 300;
      Log ERROR "TOR failed: reached a 300 second timeout without success";
      ProcessIter; Sleep 60;
      ProcessIter; Sleep 60;
      Log INFO "Agent stopped gracefully";
      Print "[*] Agent stopped"]).
Proof. reflexivity. Qed.

Example tray_session_trace :
  main tray_session
  = (Some (Exit 0),
     [SocketBind "127.0.0.1" 65432;
      GuiExec;
      Log INFO "=== Secure AI Agent Started ===";
      LaunchTor "tor" 300;
      Log ERROR "TOR failed: module 'stem' has no attribute 'process'";
      ProcessIter; Sleep 60;
      ProcessIter;
      ShowMessage "System Scan" "High CPU: miner (PID: 4242)"]).
Proof. reflexivity. Qed.

(** *** The event loop of the tray *)

Lemma is_offered_exit (caps : capabilities) :
  is_offered caps on_clean_exit = true.
Proof.
  unfold is_offered, setup_tray_menu.
  destruct (TOR_READY caps), (AI_READY caps); reflexivity.
Qed.

Lemma thread_step_grows (caps : capabilities) (system : string)
    (launch : outcome Popen) (c : cycle) (t : thread) (m : machine) :
  within any_event any_core m (snd (thread_step caps system launch c t m)).
Proof.
  assert (Hrefl : forall x, within any_event any_core x x)
    by (intros x; apply within_refl; intros; exact I).
  assert (Htrans : forall x y z, within any_event any_core x y ->
                                 within any_event any_core y z ->
                                 within any_event any_core x z)
    by (intros x y z; apply within_trans; intros; exact I).
  destruct t; simpl.
  - unfold bind, log. simpl.
    pose proof (start_tor_grows caps system launch
                  (emit (Log INFO "=== Secure AI Agent Started ===") m)) as Hs.
    assert (He : within any_event any_core m
                   (emit (Log INFO "=== Secure AI Agent Started ===") m))
      by (apply within_emit; [intros; exact I | exact I]).
    destruct (start_tor caps system launch
                (emit (Log INFO "=== Secure AI Agent Started ===") m))
      as [[b|e] m1]; simpl in *; exact (Htrans _ _ _ He Hs).
  - destruct (running (core m)).
    + pose proof (loop_body_framed any_event any_core
                    (fun _ => I) (fun _ _ _ _ _ => I) (fun _ _ => I)
                    (fun _ _ => I) c m) as Hb.
      destruct (loop_body c m) as [[[]|e] m1]; simpl in *; exact Hb.
    + simpl. apply within_emit; [intros; exact I | exact I].
  - apply Hrefl.
Qed.

(** The trace only grows while the event loop runs. *)
Lemma exec_grows (w : launch_world) (slots : list tray_slot) (t : thread)
    (m : machine) :
  within any_event any_core m (snd (exec_ w slots t m)).
Proof.
  assert (Hrefl : forall x, within any_event any_core x x)
    by (intros x; apply within_refl; intros; exact I).
  assert (Htrans : forall x y z, within any_event any_core x y ->
                                 within any_event any_core y z ->
                                 within any_event any_core x z)
    by (intros x y z; apply within_trans; intros; exact I).
  revert t m. induction slots as [|slot rest IH]; intros t m; [apply Hrefl|].
  assert (Hclick : forall h,
            handler_of slot = Some h ->
            within any_event any_core m
              (snd (match handler_of slot with
                    | None => exec_ w rest t m
                    | Some h =>
                        if is_offered (caps_of w) h then
                          match click w slot m with
                          | (Raise e, m') => (Some (Uncaught e), m')
                          | (Return _, m') =>
                              match slot with
                              | Click_exit => (Some (Exit 0), m')
                              | _ => exec_ w rest t m'
                              end
                          end
                        else exec_ w rest t m
                    end))).
  { intros h Hh. rewrite Hh.
    destruct (is_offered (caps_of w) h); [|apply IH].
    pose proof (click_framed any_event any_core
                  (fun _ => I) (fun _ _ _ _ _ => I) (fun _ _ => I)
                  (fun _ _ => I) w slot m) as Hc.
    destruct (click w slot m) as [[[]|e] m1]; simpl in Hc; [|exact Hc].
    destruct slot; try exact (Htrans _ _ _ Hc (IH t m1)). exact Hc. }
  destruct slot; try (apply (Hclick _ eq_refl)).
  simpl.
  pose proof (thread_step_grows (caps_of w) (platform_system w) (tor_launch w)
                c t m) as Hs.
  destruct (thread_step (caps_of w) (platform_system w) (tor_launch w) c t m)
    as [t' m1]. simpl in Hs.
  exact (Htrans _ _ _ Hs (IH t' m1)).
Qed.

(** The handler of a quiet slot returns. *)
Lemma click_quiet (w : launch_world) (slot : tray_slot) (m : machine) :
  quiet_slot slot = true -> fst (click w slot m) = Return tt.
Proof.
  destruct slot as [c | | from_port authenticate signal | pipeline [text ok]
                   | en | ]; simpl; intros Hq.
  - reflexivity.
  - reflexivity.
  - apply andb_true_iff in Hq. destruct Hq as [Hf Ha].
    unfold renew_tor, try_except, bind, load_name, controller,
      Controller_bound, Signal_bound, raise, ret, show_message, call.
    destruct (TOR_READY (caps_of w)); simpl; [|reflexivity].
    destruct from_port as [[]|e]; simpl in *; [|now rewrite Hf].
    destruct authenticate as [[]|e]; simpl in *; [reflexivity | now rewrite Ha].
  - unfold run_analysis.
    destruct (ok && negb (text =? ""))%string; [|reflexivity].
    unfold bind, ai_analyze, show_message, call.
    destruct (negb (AI_READY (caps_of w))); [reflexivity|].
    unfold try_except, bind, call, log, ret.
    destruct pipeline as [an|e]; simpl in *.
    + destruct (an text) as [labels|e]; simpl in *; [reflexivity|].
      now rewrite Hq.
    + now rewrite Hq.
  - unfold run_scan, bind, show_message, call.
    now rewrite (security_scan_returns en m Hq).
  - discriminate Hq.
Qed.

(** Quiet slots do not end the event loop, and the exit picked after
    them ends it with status 0. *)
Lemma exec_quiet_exit (w : launch_world) (before after : list tray_slot)
    (t : thread) (m : machine) :
  forallb quiet_slot before = true ->
  fst (exec_ w (before ++ Click_exit :: after) t m) = Some (Exit 0).
Proof.
  revert t m. induction before as [|slot before IH]; intros t m Hq.
  - simpl. now rewrite is_offered_exit.
  - simpl in Hq. apply andb_true_iff in Hq. destruct Hq as [Hs Hq].
    pose proof (click_quiet w slot m Hs) as Hc.
    destruct slot; simpl in *; try discriminate Hs.
    all: try (match goal with
           | |- context [is_offered ?c ?h] => destruct (is_offered c h)
           end; [|now apply IH]).
    all: try (match goal with
           | |- context [match ?x with (_, _) => _ end] =>
               destruct x as [[[]|e] m1]
           end; simpl in Hc; [now apply IH | discriminate Hc]).
    + destruct (thread_step (caps_of w) (platform_system w) (tor_launch w)
                  c t m) as [t' m1].
      now apply IH.
    + now apply IH.
Qed.

(** Through the tray the process only ever exits with status 0. *)
Lemma exec_exit_status (w : launch_world) (slots : list tray_slot)
    (t : thread) (m : machine) (status : Z) :
  fst (exec_ w slots t m) = Some (Exit status) -> status = 0%Z.
Proof.
  revert t m. induction slots as [|slot rest IH]; intros t m; [discriminate|].
  destruct slot; simpl.
  all: try (match goal with
         | |- context [is_offered ?c ?h] => destruct (is_offered c h)
         end; [|now apply IH]).
  all: try (match goal with
         | |- context [match ?x with (_, _) => _ end] =>
             destruct x as [[[]|e] m1]
         end; simpl; [|discriminate]).
  all: try (now apply IH).
  - destruct (thread_step (caps_of w) (platform_system w) (tor_launch w) c t m)
      as [t' m1].
    now apply IH.
  - intros H. now inversion H.
Qed.

(** C7. When the bind fails because another instance holds the port
    ([socket.error]), the launcher prints the error and exits with status
    1, and the bind and that print are all it ever did: no interface and
    no subsystem was started.  When the port is free the launcher goes on.
    With the tray, once [SecureAIGUI()] is built the thread of the core is
    there: its first step starts the agent, and when the user picks the
    exit the process leaves with status 0, the only status it ever leaves
    with through the tray.  On the command line, also after falling back
    from a tray that could not be built, the agent starts, and once a stop
    request or Ctrl+C ends the loop the process exits with status 0. *)
Theorem instance_guard (w : launch_world) :
  (forall e, bind_raises w = Some e -> is_socket_error e = true ->
     main w
     = (Some (Exit 1),
        [SocketBind "127.0.0.1" 65432;
         PrintErr "Error: Another instance is already running"]))
  /\ (bind_raises w = None ->
      (GUI_READY (caps_of w) && negb (cli_flag w) = true ->
       SecureAIGUI_raises w = None ->
       (exists more, snd (main w) = [SocketBind "127.0.0.1" 65432; GuiExec] ++ more)
       /\ (forall c rest, slots_of w = Background c :: rest ->
           exists more,
             snd (main w)
             = [SocketBind "127.0.0.1" 65432; GuiExec;
                Log INFO "=== Secure AI Agent Started ==="] ++ more)
       /\ (forall before after,
             slots_of w = before ++ Click_exit :: after ->
             forallb quiet_slot before = true ->
             fst (main w) = Some (Exit 0))
       /\ (forall status, fst (main w) = Some (Exit status) -> status = 0%Z))
      /\ (GUI_READY (caps_of w) && negb (cli_flag w) = false ->
          setup_logging_raises w = None ->
          Forall (fun c => sleep_ok c = true) (cycles_of w) ->
          Exists (fun c => stops c = true) (cycles_of w) ->
          exists more,
            main w
            = (Some (Exit 0),
               [SocketBind "127.0.0.1" 65432;
                Print banner;
                Print "[*] Starting Secure AI Agent (Ctrl+C to stop)";
                Log INFO "=== Secure AI Agent Started ==="] ++ more))
      /\ (GUI_READY (caps_of w) && negb (cli_flag w) = true ->
          forall e, SecureAIGUI_raises w = Some e -> is_Exception e = true ->
          setup_logging_raises w = None ->
          Forall (fun c => sleep_ok c = true) (cycles_of w) ->
          Exists (fun c => stops c = true) (cycles_of w) ->
          exists more,
            main w
            = (Some (Exit 0),
               [SocketBind "127.0.0.1" 65432;
                GuiExec;
                Print ("GUI failed: " ++ str e ++ " - falling back to CLI");
                Print banner;
                Print "[*] Starting Secure AI Agent (Ctrl+C to stop)";
                Log INFO "=== Secure AI Agent Started ==="] ++ more))).
Proof.
  split.
  - intros e Hb He. unfold main. now rewrite Hb, He.
  - intros Hb. unfold main. rewrite Hb. split; [|split].
    + intros Hgui Hbuilt. rewrite Hgui, Hbuilt. cbv zeta. cbn [fst snd].
      set (m0 := {| core := __init__;
                    events := [SocketBind "127.0.0.1" 65432] ++ [GuiExec] |}).
      split; [|split; [|split]].
      * destruct (exec_grows w (slots_of w) Starting m0) as [_ [more [Hev _]]].
        exists more. rewrite Hev. reflexivity.
      * intros c rest Hslots. rewrite Hslots. simpl exec_.
        unfold bind, log.
        destruct (start_tor_grows (caps_of w) (platform_system w) (tor_launch w)
                    (emit (Log INFO "=== Secure AI Agent Started ===") m0))
          as [_ [a [Ha _]]].
        destruct (start_tor (caps_of w) (platform_system w) (tor_launch w)
                    (emit (Log INFO "=== Secure AI Agent Started ===") m0))
          as [[b|e] m1]; simpl in Ha;
          match goal with
          | |- context [exec_ w rest ?t m1] =>
              destruct (exec_grows w rest t m1) as [_ [b' [Hb' _]]]
          end;
          exists (a ++ b'); rewrite Hb', Ha; simpl;
          rewrite <- ?app_assoc; reflexivity.
      * intros before after Hslots Hq. rewrite Hslots.
        now apply exec_quiet_exit.
      * intros status. apply exec_exit_status.
    + intros Hcli Hinit Hok Hstop. rewrite Hcli.
      destruct (cli_main_graceful w [SocketBind "127.0.0.1" 65432]
                  Hinit Hok Hstop) as [more Hm].
      exists more. exact Hm.
    + intros Hgui e Hs He Hinit Hok Hstop. rewrite Hgui, Hs, He.
      destruct (cli_main_graceful w
                  ([SocketBind "127.0.0.1" 65432]
                   ++ [GuiExec;
                       Print ("GUI failed: " ++ str e ++ " - falling back to CLI")])
                  Hinit Hok Hstop) as [more Hm].
      exists more. exact Hm.
Qed.

Lemma instance_guard_witness :
  main second_instance
  = (Some (Exit 1),
     [SocketBind "127.0.0.1" 65432;
      PrintErr "Error: Another instance is already running"])
  /\ fst (main tray_session) = Some (Exit 0)
  /\ exists more,
       main cli_session
       = (Some (Exit 0),
          [SocketBind "127.0.0.1" 65432;
           Print banner;
           Print "[*] Starting Secure AI Agent (Ctrl+C to stop)";
           Log INFO "=== Secure AI Agent Started ==="] ++ more).
Proof.
  split; [|split].
  - apply (proj1 (instance_guard second_instance)
             (Exn OSError "[Errno 98] Address already in use"));
      reflexivity.
  - apply (proj1 (proj2 (proj2
             (proj1 (proj2 (instance_guard tray_session) eq_refl)
                eq_refl eq_refl)))
             [ Background (quiet_cycle []);
               Background (quiet_cycle [shell]);
               Click_run_scan (listing [miner]) ]
             [ Background (quiet_cycle [shell]) ]);
      reflexivity.
  - apply (proj1 (proj2 (proj2 (instance_guard cli_session) eq_refl))).
    + reflexivity.
    + reflexivity.
    + repeat constructor.
    + apply Exists_cons_tl. apply Exists_cons_hd. reflexivity.
Defined.

(** * Further properties of the code *)

(** ** start_tor *)

(** X1. [start_tor] returns [True] exactly when the capability is there
    and the launch returned a handle, and then it has stored that handle.
    In every other case the core is left as it was, so a handle held from
    an earlier start is kept.  It never writes [running], and without the
    capability it logs its warning and does not call the launch at all. *)
Theorem start_tor_result (caps : capabilities) (system : string)
    (launch : outcome Popen) (m : machine) :
  (fst (start_tor caps system launch m) = Return true
   <-> TOR_READY caps = true /\ exists h, launch = Return h)
  /\ (forall h, TOR_READY caps = true -> launch = Return h ->
      tor_process (core (snd (start_tor caps system launch m))) = Some h)
  /\ (fst (start_tor caps system launch m) <> Return true ->
      core (snd (start_tor caps system launch m)) = core m)
  /\ running (core (snd (start_tor caps system launch m))) = running (core m)
  /\ (TOR_READY caps = false ->
      start_tor caps system launch m
      = (Return false,
         emit (Log WARNING "TOR not available - running in unprotected mode") m)).
Proof.
  unfold start_tor. destruct (TOR_READY caps) eqn:Hr; simpl.
  - unfold try_except, bind, call, modify, log, ret. simpl.
    destruct launch as [h|e]; simpl.
    + split; [split; [intros _; split; [reflexivity | now exists h] | reflexivity]|].
      split; [intros h' _ Hh; now inversion Hh|].
      split; [intros Hne; now contradiction Hne|].
      split; [reflexivity | discriminate].
    + assert (Hno : ~ (true = true /\ exists h : Popen, Raise e = Return h))
        by (intros [_ [h Hh]]; discriminate Hh).
      destruct (is_Exception e); simpl;
        (split; [split; [discriminate | intros H; now contradiction Hno]|]);
        (split; [intros h _ Hh; discriminate Hh|]);
        (split; [reflexivity|]); (split; [reflexivity | discriminate]).
  - unfold bind, log, ret. simpl.
    split; [split; [discriminate | intros [H _]; discriminate H]|].
    split; [intros h H; discriminate H|].
    repeat split.
Qed.

Lemma start_tor_result_witness :
  tor_process (core (snd (start_tor all_ready "Windows" (Return 812%Z)
                            fresh_machine))) = Some 812%Z
  /\ start_tor {| AI_READY := true; TOR_READY := false; GUI_READY := true |}
       "Linux" (Return 812%Z) fresh_machine
     = (Return false,
        emit (Log WARNING "TOR not available - running in unprotected mode")
          fresh_machine).
Proof.
  split.
  - apply (proj1 (proj2 (start_tor_result all_ready "Windows" (Return 812%Z)
                           fresh_machine)) 812%Z); reflexivity.
  - apply (proj2 (proj2 (proj2 (proj2
             (start_tor_result
                {| AI_READY := true; TOR_READY := false; GUI_READY := true |}
                "Linux" (Return 812%Z) fresh_machine))))).
    reflexivity.
Defined.

(** X2. After [start_tor] on a core that holds no handle, the status the
    tray shows agrees with what [start_tor] returned: the line reads
    [TOR: Active] if it returned [True] and [TOR: Inactive] if it returned
    [False]. *)
Theorem start_tor_then_show_status (caps : capabilities) (system : string)
    (launch : outcome Popen) (m : machine) (started : bool) :
  tor_process (core m) = None ->
  fst (start_tor caps system launch m) = Return started ->
  let m' := snd (start_tor caps system launch m) in
  show_status caps m'
  = (Return tt,
     emit (ShowMessage "Current Status"
             (join_lines
                [ ("Agent: " ++ (if running (core m) then "Running" else "Stopped"))%string;
                  (if started then "TOR: Active" else "TOR: Inactive");
                  ("AI: " ++ (if AI_READY caps then "Ready" else "Unavailable"))%string ]))
       m').
Proof.
  intros Hnone Hret m'. subst m'. revert Hret.
  unfold show_status, bind, get_core, show_message, call, status_lines,
    tor_active, start_tor.
  destruct (TOR_READY caps); simpl.
  - unfold try_except, bind, call, modify, log, ret. simpl.
    destruct launch as [h|e]; simpl.
    + intros H. inversion H; subst. reflexivity.
    + destruct (is_Exception e); simpl; intros H; inversion H; subst.
      rewrite Hnone. reflexivity.
  - intros H. inversion H; subst. rewrite Hnone. reflexivity.
Qed.

Lemma start_tor_then_show_status_witness :
  show_status all_ready
    (snd (start_tor all_ready "Linux" (Raise launch_timeout) fresh_machine))
  = (Return tt,
     emit (ShowMessage "Current Status"
             (join_lines ["Agent: Running"; "TOR: Inactive"; "AI: Ready"]))
       (snd (start_tor all_ready "Linux" (Raise launch_timeout) fresh_machine))).
Proof.
  exact (start_tor_then_show_status all_ready "Linux" (Raise launch_timeout)
           fresh_machine false eq_refl eq_refl).
Defined.

(** ** What escapes the subsystem calls *)

Lemma interrupt_only_ret {A} (a : A) : interrupt_only (ret a).
Proof. intros m e H. discriminate H. Qed.

Lemma interrupt_only_bind {A B} (c : M A) (k : A -> M B) :
  interrupt_only c -> (forall a, interrupt_only (k a)) ->
  interrupt_only (bind c k).
Proof.
  intros Hc Hk m e. unfold bind. specialize (Hc m).
  destruct (c m) as [[a|e'] m1]; simpl in *.
  - apply Hk.
  - intros H. inversion H; subst. now apply Hc.
Qed.

(** Under [except Exception] only a [KeyboardInterrupt] of the body gets
    through, whatever the body is. *)
Lemma interrupt_only_except_Exception {A} (body : M A) (handler : exn -> M A) :
  (forall e, interrupt_only (handler e)) ->
  interrupt_only (try_except body is_Exception handler).
Proof.
  intros Hh m e. unfold try_except.
  destruct (body m) as [[a|e'] m1]; simpl; [discriminate|].
  destruct (is_Exception e') eqn:E.
  - apply Hh.
  - simpl. intros H. inversion H; subst.
    rewrite Exception_not_KeyboardInterrupt. now rewrite E.
Qed.

Lemma interrupt_only_show_message (title message : string) :
  interrupt_only (show_message title message).
Proof. intros m e H. discriminate H. Qed.

Lemma interrupt_only_log (lvl : level) (msg : string) :
  interrupt_only (log lvl msg).
Proof. intros m e H. discriminate H. Qed.

(** X3. No [Exception] comes out of the relay start, the text analysis,
    the scan, or any of the tray handlers built on them: whatever psutil,
    stem, transformers or the controller raise, the only thing these calls
    can raise is a [KeyboardInterrupt]. *)
Theorem subsystems_raise_only_interrupt :
  (forall caps system launch, interrupt_only (start_tor caps system launch))
  /\ (forall caps pipeline text, interrupt_only (ai_analyze caps pipeline text))
  /\ (forall en, interrupt_only (security_scan en))
  /\ (forall en, interrupt_only (run_scan en))
  /\ (forall render caps pipeline dialog,
        interrupt_only (run_analysis render caps pipeline dialog))
  /\ (forall caps from_port authenticate signal,
        interrupt_only (renew_tor caps from_port authenticate signal))
  /\ (forall caps, interrupt_only (show_status caps)).
Proof.
  assert (Hai : forall caps pipeline text,
             interrupt_only (ai_analyze caps pipeline text)).
  { intros caps pipeline text. unfold ai_analyze.
    destruct (negb (AI_READY caps)); [apply interrupt_only_ret|].
    apply interrupt_only_except_Exception. intros e.
    apply interrupt_only_bind; [apply interrupt_only_log|].
    intros _. apply interrupt_only_ret. }
  assert (Hscan : forall en, interrupt_only (security_scan en)).
  { intros en m e. apply security_scan_raises_interrupt. }
  repeat split.
  - intros caps system launch m e. apply start_tor_raises_interrupt.
  - exact Hai.
  - exact Hscan.
  - intros en. unfold run_scan.
    apply interrupt_only_bind; [apply Hscan|].
    intros threats. apply interrupt_only_show_message.
  - intros render caps pipeline [text ok]. unfold run_analysis.
    destruct (ok && negb (text =? ""))%string; [|apply interrupt_only_ret].
    apply interrupt_only_bind; [apply Hai|].
    intros result. apply interrupt_only_show_message.
  - intros caps from_port authenticate signal. unfold renew_tor.
    apply interrupt_only_except_Exception. intros e.
    apply interrupt_only_show_message.
  - intros caps. unfold show_status.
    apply interrupt_only_bind; [intros m e H; discriminate H|].
    intros c. apply interrupt_only_show_message.
Qed.

(** ** The on-demand commands and the core *)

Lemma eq_core_trans (a b c : SecureAICore) : a = b -> b = c -> a = c.
Proof. intros -> ->. reflexivity. Qed.

Lemma any_event_other (ev : event) :
  ev <> Log INFO "TOR started successfully" -> any_event ev.
Proof. intros _. exact I. Qed.

Lemma framed_core {A} (c : M A) (m : machine) :
  framed any_event eq c -> core (snd (c m)) = core m.
Proof. intros H. destruct (H m) as [Hcore _]. now symmetry. Qed.

Lemma framed_controller {A} (r : outcome A) : framed any_event eq (controller r).
Proof. intros m. now apply within_refl. Qed.

Lemma framed_load_name (is_bound : bool) (name : string) :
  framed any_event eq (load_name is_bound name).
Proof.
  intros m. unfold load_name. destruct is_bound; now apply within_refl.
Qed.

Lemma framed_show_message (title message : string) :
  framed any_event eq (show_message title message).
Proof. apply framed_call; [reflexivity | exact I]. Qed.

(** X4. Scanning, analysing text, showing the status and renewing the
    identity, from the core or from the tray, never write the core: the
    [running] flag and the relay handle are the same after as before,
    whatever the outside world answers, also when the command raises. *)
Theorem commands_keep_core (m : machine) :
  (forall en, core (snd (security_scan en m)) = core m)
  /\ (forall en, core (snd (run_scan en m)) = core m)
  /\ (forall caps pipeline text,
        core (snd (ai_analyze caps pipeline text m)) = core m)
  /\ (forall render caps pipeline dialog,
        core (snd (run_analysis render caps pipeline dialog m)) = core m)
  /\ (forall caps, core (snd (show_status caps m)) = core m)
  /\ (forall caps from_port authenticate signal,
        core (snd (renew_tor caps from_port authenticate signal m)) = core m).
Proof.
  split; [|split; [|split; [|split; [|split]]]]; intros; apply framed_core.
  - apply security_scan_framed;
      [reflexivity | exact eq_core_trans | exact any_event_other].
  - apply run_scan_framed;
      [reflexivity | exact eq_core_trans | exact any_event_other].
  - apply ai_analyze_framed;
      [reflexivity | exact eq_core_trans | exact any_event_other].
  - destruct dialog as [text ok]. unfold run_analysis.
    destruct (ok && negb (text =? ""))%string; [|now apply framed_ret].
    apply framed_bind; [exact eq_core_trans | |].
    + apply ai_analyze_framed;
        [reflexivity | exact eq_core_trans | exact any_event_other].
    + intros result. apply framed_show_message.
  - apply show_status_framed;
      [reflexivity | exact eq_core_trans | exact any_event_other].
  - unfold renew_tor. apply framed_try_except; [exact eq_core_trans | |].
    + repeat (apply framed_bind; [exact eq_core_trans | | intros _]);
        first [apply framed_load_name | apply framed_controller
              | apply framed_show_message].
    + intros e. apply framed_show_message.
Qed.

(** ** ai_analyze *)

(** X5. [ai_analyze] returns a classification exactly when the capability
    is there, the pipeline was built and the analyzer returned these labels
    for this text: it never makes one up and never alters one.  On that
    path it logs nothing; the trace gains the two backend calls. *)
Theorem ai_analyze_classified (caps : capabilities)
    (pipeline : outcome analyzer) (text : string) (m : machine)
    (labels : list (string * Q)) :
  (fst (ai_analyze caps pipeline text m) = Return (Classified labels)
   <-> AI_READY caps = true
       /\ exists an, pipeline = Return an /\ an text = Return labels)
  /\ (fst (ai_analyze caps pipeline text m) = Return (Classified labels) ->
      snd (ai_analyze caps pipeline text m)
      = emit (Analyze text)
          (emit (Pipeline "text-classification" "distilbert-base-uncased") m)).
Proof.
  unfold ai_analyze. destruct (AI_READY caps); simpl.
  - unfold try_except, bind, call, log, ret. simpl.
    destruct pipeline as [an|e]; simpl.
    + destruct (an text) as [labels'|e] eqn:Han; simpl.
      * split; [split|].
        -- intros H. inversion H; subst. split; [reflexivity|].
           exists an. now split.
        -- intros [_ [an' [Hp Ha]]]. inversion Hp; subst an'.
           rewrite Han in Ha. now inversion Ha.
        -- reflexivity.
      * split; [split|].
        -- destruct (is_Exception e); simpl; discriminate.
        -- intros [_ [an' [Hp Ha]]]. inversion Hp; subst an'.
           rewrite Han in Ha. discriminate Ha.
        -- destruct (is_Exception e); simpl; discriminate.
    + split; [split|].
      * destruct (is_Exception e); simpl; discriminate.
      * intros [_ [an' [Hp _]]]. discriminate Hp.
      * destruct (is_Exception e); simpl; discriminate.
  - split; [split|].
    + discriminate.
    + intros [H _]. discriminate H.
    + discriminate.
Qed.

Lemma ai_analyze_classified_witness :
  snd (ai_analyze all_ready (Return (fun _ => Return [("LABEL_1", 7 # 10)]))
         "hello" fresh_machine)
  = emit (Analyze "hello")
      (emit (Pipeline "text-classification" "distilbert-base-uncased")
         fresh_machine).
Proof.
  apply (proj2 (ai_analyze_classified all_ready
                  (Return (fun _ => Return [("LABEL_1", 7 # 10)])) "hello"
                  fresh_machine [("LABEL_1", 7 # 10)])).
  reflexivity.
Defined.

(** ** The tray *)

Example renew_tor_without_relay :
  renew_tor all_ready (Raise (Exn OSError "[Errno 111] Connection refused"))
    (Return tt) (Return tt) fresh_machine
  = (Return tt,
     {| core := __init__;
        events := [ShowMessage "Error"
                     "TOR renewal failed: [Errno 111] Connection refused"] |}).
Proof. reflexivity. Qed.

(** X6. [renew_tor] never reports a renewal.  Whatever the controller
    does, the handler either shows exactly one message, titled [Error], or
    is cut short by a [KeyboardInterrupt] having shown nothing; the message
    [Successfully renewed anonymous identity] is never shown.  When the
    connection and the authentication both succeed, the error shown is the
    [NameError] on [Signal], and the signal is not sent. *)
Theorem renew_tor_never_succeeds (caps : capabilities)
    (from_port authenticate signal : outcome unit) (m : machine) :
  ((exists e,
      renew_tor caps from_port authenticate signal m
      = (Return tt,
         emit (ShowMessage "Error" ("TOR renewal failed: " ++ str e)) m))
   \/ (exists e,
         renew_tor caps from_port authenticate signal m = (Raise e, m)
         /\ is_KeyboardInterrupt e = true))
  /\ (TOR_READY caps = true ->
      from_port = Return tt -> authenticate = Return tt ->
      renew_tor caps from_port authenticate signal m
      = (Return tt,
         emit (ShowMessage "Error"
                 "TOR renewal failed: name 'Signal' is not defined") m)).
Proof.
  assert (Hraise : forall e,
            (if is_Exception e
             then show_message "Error" ("TOR renewal failed: " ++ str e) m
             else (Raise e, m))
            = (if is_Exception e
               then (Return tt,
                     emit (ShowMessage "Error" ("TOR renewal failed: " ++ str e)) m)
               else (Raise e, m))) by (intros e; reflexivity).
  assert (Hcase : forall e r,
            r = (if is_Exception e
                 then (Return tt,
                       emit (ShowMessage "Error" ("TOR renewal failed: " ++ str e)) m)
                 else (Raise e, m)) ->
            (exists e0, r = (Return tt,
                             emit (ShowMessage "Error"
                                     ("TOR renewal failed: " ++ str e0)) m))
            \/ (exists e0, r = (@Raise unit e0, m)
                           /\ is_KeyboardInterrupt e0 = true)).
  { intros e r ->. destruct (is_Exception e) eqn:E.
    - left. now exists e.
    - right. exists e. split; [reflexivity|].
      rewrite Exception_not_KeyboardInterrupt. now rewrite E. }
  unfold renew_tor, try_except, bind, load_name, controller, Controller_bound,
    Signal_bound, raise, ret.
  split.
  - destruct (TOR_READY caps); simpl.
    + destruct from_port as [[]|e]; simpl; [|now apply (Hcase e)].
      destruct authenticate as [[]|e]; simpl; [|now apply (Hcase e)].
      left. now exists (Exn RuntimeError "name 'Signal' is not defined").
    + left. now exists (Exn RuntimeError "name 'Controller' is not defined").
  - intros -> -> ->. reflexivity.
Qed.

Lemma renew_tor_never_succeeds_witness :
  renew_tor all_ready (Return tt) (Return tt) (Return tt) fresh_machine
  = (Return tt,
     emit (ShowMessage "Error"
             "TOR renewal failed: name 'Signal' is not defined") fresh_machine).
Proof.
  apply (proj2 (renew_tor_never_succeeds all_ready (Return tt) (Return tt)
                  (Return tt) fresh_machine)); reflexivity.
Defined.

(** X7. The tray menu always offers the status, the scan and the exit,
    each handler at most once and the exit last; it offers the identity
    renewal exactly when [TOR_READY] is set and the text analysis exactly
    when [AI_READY] is set. *)
Theorem setup_tray_menu_offers (caps : capabilities) :
  (In on_run_analysis (offered (setup_tray_menu caps)) <-> AI_READY caps = true)
  /\ (In on_renew_tor (offered (setup_tray_menu caps)) <-> TOR_READY caps = true)
  /\ In on_show_status (offered (setup_tray_menu caps))
  /\ In on_run_scan (offered (setup_tray_menu caps))
  /\ NoDup (offered (setup_tray_menu caps))
  /\ last (setup_tray_menu caps) Separator = Action "Exit" on_clean_exit.
Proof.
  unfold setup_tray_menu.
  destruct (AI_READY caps), (TOR_READY caps); simpl;
    (split; [split; [intros H; repeat (destruct H as [H|H]; try discriminate H);
                     try reflexivity; try contradiction
                    | intros H; try discriminate H; auto 6 ]|]);
    (split; [split; [intros H; repeat (destruct H as [H|H]; try discriminate H);
                     try reflexivity; try contradiction
                    | intros H; try discriminate H; auto 6 ]|]);
    (split; [auto|]); (split; [auto 6|]);
    (split; [|reflexivity]);
    repeat (constructor;
            [intros H; repeat (destruct H as [H|H]; try discriminate H);
             contradiction|]);
    constructor.
Qed.

(** X8. When the tray offers the text analysis, a request with a
    non-empty text always reaches the backend: the first thing it does is
    build the pipeline, so the [AI engine not available] answer of
    [ai_analyze] cannot come up from the tray.  A cancelled dialog or an
    empty text does nothing at all: no backend call, no message. *)
Theorem run_analysis_from_menu (render : analysis -> string)
    (caps : capabilities) (pipeline : outcome analyzer) (text : string)
    (ok : bool) (m : machine) :
  In on_run_analysis (offered (setup_tray_menu caps)) ->
  (ok = false \/ text = "" ->
   run_analysis render caps pipeline (text, ok) m = (Return tt, m))
  /\ (ok = true -> text <> "" ->
      exists rest,
        events (snd (run_analysis render caps pipeline (text, ok) m))
        = events m
          ++ Pipeline "text-classification" "distilbert-base-uncased" :: rest).
Proof.
  intros Hmenu.
  assert (Hai : AI_READY caps = true).
  { revert Hmenu. unfold setup_tray_menu.
    destruct (AI_READY caps); [reflexivity|].
    destruct (TOR_READY caps); simpl; intros H;
      repeat (destruct H as [H|H]; try discriminate H); contradiction. }
  split.
  - intros [-> | ->]; unfold run_analysis; simpl; [reflexivity|].
    now rewrite andb_false_r.
  - intros -> Hne. unfold run_analysis.
    destruct (String.eqb_spec text "") as [Heq|_]; [contradiction|]. simpl.
    unfold bind, ai_analyze. rewrite Hai. simpl.
    unfold try_except, bind, call, log, ret, show_message, call.
    destruct pipeline as [an|e]; simpl.
    + destruct (an text) as [labels|e]; simpl.
      * eexists. rewrite <- !app_assoc. reflexivity.
      * destruct (is_Exception e); simpl; eexists;
          rewrite <- !app_assoc; reflexivity.
    + destruct (is_Exception e); simpl; eexists;
        rewrite <- ?app_assoc; reflexivity.
Qed.

Lemma run_analysis_from_menu_witness :
  run_analysis (fun _ => "") all_ready (Raise launch_timeout)
    ("", true) fresh_machine
  = (Return tt, fresh_machine).
Proof.
  apply (run_analysis_from_menu (fun _ => "") all_ready (Raise launch_timeout)
           "" true fresh_machine).
  - simpl. auto.
  - now right.
Defined.

(** ** security_scan on arbitrary enumerations *)

(** An entry whose inspection raises something the inner handler does not
    catch ends the loop where it stands. *)
Lemma scan_processes_stop (proc : outcome process_info) (e : exn)
    (before rest : list (outcome process_info)) (fail : option exn)
    (acc : list string) :
  (forall threats, inspect proc threats = Raise e) ->
  is_NoSuchProcess_or_AccessDenied e = false ->
  scan_for {| yielded := before ++ proc :: rest; failure := fail |} acc
  = scan_for {| yielded := before; failure := Some e |} acc.
Proof.
  intros Hraise Hskip. unfold scan_for. simpl.
  revert acc. induction before as [|p before IH]; intros acc; simpl.
  - now rewrite Hraise, Hskip.
  - destruct (inspect p acc) as [acc'|e'].
    + apply IH.
    + destruct (is_NoSuchProcess_or_AccessDenied e'); [apply IH | reflexivity].
Qed.

(** X9. An entry whose inspection raises anything but the two psutil
    conditions, or whose [cpu_percent] is [None], ends the scan on the
    spot: the entries enumerated after it are never inspected, and the scan
    returns and logs what it would if the iterator itself had failed
    there. *)
Theorem security_scan_stops_at_exception
    (before rest : list (outcome process_info)) (fail : option exn)
    (m : machine) :
  (forall e, is_NoSuchProcess_or_AccessDenied e = false ->
     security_scan {| yielded := before ++ Raise e :: rest; failure := fail |} m
     = security_scan {| yielded := before; failure := Some e |} m)
  /\ (forall info, cpu_percent info = None ->
        security_scan
          {| yielded := before ++ Return info :: rest; failure := fail |} m
        = security_scan
            {| yielded := before;
               failure := Some (Exn TypeError
                 "'>' not supported between instances of 'NoneType' and 'int'") |}
            m).
Proof.
  split.
  - intros e He. unfold security_scan.
    now rewrite (scan_processes_stop (Raise e) e before rest fail []).
  - intros info Hnone. unfold security_scan.
    rewrite (scan_processes_stop (Return info)
               (Exn TypeError
                  "'>' not supported between instances of 'NoneType' and 'int'")
               before rest fail []); [reflexivity | | reflexivity].
    intros threats. unfold inspect. now rewrite Hnone.
Qed.

Lemma security_scan_stops_at_exception_witness :
  security_scan
    {| yielded := [Return (info_of shell)]
                  ++ Raise (Exn RuntimeError "zombie process")
                  :: [Return (info_of miner)];
       failure := None |} fresh_machine
  = (Return [no_threats],
     emit (Log ERROR "Scan failed: zombie process")
       (emit ProcessIter fresh_machine)).
Proof.
  rewrite (proj1 (security_scan_stops_at_exception [Return (info_of shell)]
                    [Return (info_of miner)] None fresh_machine)
             (Exn RuntimeError "zombie process") eq_refl).
  reflexivity.
Defined.

Lemma scan_processes_read_or_skipped (procs : list (outcome process_info))
    (acc : list string) :
  read_or_skipped procs = true ->
  scan_processes procs acc
  = (acc ++ map high_cpu (filter flagged (inspected procs)), None).
Proof.
  revert acc. induction procs as [|p procs IH]; intros acc H.
  - simpl. now rewrite app_nil_r.
  - simpl in H. apply andb_true_iff in H. destruct H as [Hp H].
    simpl. destruct p as [info|e]; simpl.
    + unfold flagged. destruct (cpu_percent info) as [c|]; [|discriminate Hp].
      destruct (gt_90 c); simpl.
      * rewrite (IH _ H). now rewrite <- app_assoc.
      * apply (IH _ H).
    + rewrite Hp. apply (IH _ H).
Qed.

(** X10. When every enumerated entry is either read in full or raises one
    of the two psutil conditions, and the iterator ends normally, the scan
    logs nothing and returns the [High CPU] lines of exactly the entries
    that were read and are above 90, in enumeration order, or the sentinel
    when there is none. *)
Theorem security_scan_read_or_skipped (procs : list (outcome process_info))
    (m : machine) :
  read_or_skipped procs = true ->
  security_scan {| yielded := procs; failure := None |} m
  = (Return match filter flagged (inspected procs) with
            | [] => [no_threats]
            | hot => map high_cpu hot
            end,
     emit ProcessIter m).
Proof.
  intros H. unfold security_scan, scan_for. simpl.
  rewrite (scan_processes_read_or_skipped procs [] H). simpl.
  destruct (filter flagged (inspected procs)); reflexivity.
Qed.

Lemma security_scan_read_or_skipped_witness :
  security_scan
    {| yielded := [Raise (Exn NoSuchProcess "process no longer exists (pid=9)");
                   Return (info_of miner);
                   Raise (Exn AccessDenied "(pid=1)");
                   Return (info_of shell);
                   Return (info_of encoder)];
       failure := None |} fresh_machine
  = (Return ["High CPU: miner (PID: 4242)"; "High CPU: ffmpeg (PID: 31)"],
     emit ProcessIter fresh_machine).
Proof.
  rewrite security_scan_read_or_skipped; reflexivity.
Defined.

Lemma scan_processes_sound (all procs : list (outcome process_info))
    (acc : list string) :
  incl procs all ->
  Forall (fun line => exists info, In (Return info) all
                                   /\ flagged info = true
                                   /\ line = high_cpu info) acc ->
  Forall (fun line => exists info, In (Return info) all
                                   /\ flagged info = true
                                   /\ line = high_cpu info)
    (fst (scan_processes procs acc)).
Proof.
  revert acc. induction procs as [|p procs IH]; intros acc Hincl Hacc.
  - exact Hacc.
  - assert (Hrest : incl procs all)
      by (intros x Hx; apply Hincl; now right).
    simpl. destruct (inspect p acc) as [acc'|e] eqn:E.
    + apply (IH _ Hrest).
      unfold inspect in E. destruct p as [info|e0]; [|discriminate E].
      destruct (cpu_percent info) as [c|] eqn:Hc; [|discriminate E].
      destruct (gt_90 c) eqn:Hgt; inversion E; subst; [|exact Hacc].
      apply Forall_app. split; [exact Hacc|]. constructor; [|constructor].
      exists info. split; [apply Hincl; now left|]. split; [|reflexivity].
      unfold flagged. now rewrite Hc.
    + destruct (is_NoSuchProcess_or_AccessDenied e);
        [apply (IH _ Hrest Hacc) | exact Hacc].
Qed.

(** X11. Whatever the enumeration does, every line [security_scan]
    returns is either the sentinel or the [High CPU] line of a process that
    was enumerated, whose inspection returned, and whose CPU percentage is
    above 90: the scan reports no process it did not see above the
    threshold. *)
Theorem security_scan_sound (en : enumeration) (m : machine)
    (threats : list string) (line : string) :
  fst (security_scan en m) = Return threats ->
  In line threats ->
  line = no_threats
  \/ exists info c,
       In (Return info) (yielded en)
       /\ cpu_percent info = Some c /\ (90 # 1 < c)%Q
       /\ line = high_cpu info.
Proof.
  intros Hret Hin.
  pose proof (scan_processes_sound (yielded en) (yielded en) []
                (incl_refl _) (Forall_nil _)) as Hsound.
  assert (Hfound : In line (threats_or_default (fst (scan_for en [])))).
  { unfold security_scan in Hret.
    destruct (scan_for en []) as [found [e|]]; cbn [fst] in *.
    - destruct (is_Exception e); cbn [fst] in Hret; [|discriminate Hret].
      inversion Hret; subst. exact Hin.
    - inversion Hret; subst. exact Hin. }
  assert (Hfst : fst (scan_for en []) = fst (scan_processes (yielded en) [])).
  { unfold scan_for. now destruct (scan_processes (yielded en) []) as [t [e|]]. }
  rewrite Hfst in Hfound.
  destruct (fst (scan_processes (yielded en) [])) as [|l ls] eqn:E.
  - left. simpl in Hfound. destruct Hfound as [H|[]]. now symmetry.
  - right. simpl in Hfound. rewrite Forall_forall in Hsound.
    destruct (Hsound line Hfound) as [info [Hi [Hfl Hl]]].
    unfold flagged in Hfl. destruct (cpu_percent info) as [c|] eqn:Hc;
      [|discriminate Hfl].
    exists info, c. split; [exact Hi|]. split; [exact Hc|].
    split; [now apply gt_90_spec | exact Hl].
Qed.

Lemma security_scan_sound_witness :
  "High CPU: miner (PID: 4242)" = no_threats
  \/ exists info c,
       In (Return info) (yielded (listing [shell; miner]))
       /\ cpu_percent info = Some c /\ (90 # 1 < c)%Q
       /\ "High CPU: miner (PID: 4242)" = high_cpu info.
Proof.
  apply (security_scan_sound (listing [shell; miner]) fresh_machine
           ["High CPU: miner (PID: 4242)"] "High CPU: miner (PID: 4242)").
  - reflexivity.
  - now left.
Defined.

(** ** The service loop *)

(** X12. For a process list that can be read in full, a pass of the loop
    logs a warning exactly when at least two processes are above the
    threshold, and the warning lists all their findings; with one such
    process or none it logs nothing.  In both cases it then sleeps 60
    seconds and ends normally. *)
Theorem loop_body_warns_from_two (ps : list ProcessSnapshot) (m : machine) :
  loop_body (quiet_cycle ps) m
  = (Return tt,
     emit (Sleep 60)
       (if (2 <=? length (filter exceeds_threshold ps))%nat
        then emit (Log WARNING
                     ("Security Alert:" ++ newline ++ join_lines (findings ps)))
               (emit ProcessIter m)
        else emit ProcessIter m)).
Proof.
  rewrite loop_body_spec by apply listing_raises_only_Exception.
  unfold quiet_cycle. cbn [processes sleep_raises].
  rewrite scan_for_listing. cbn [fst snd]. unfold findings.
  destruct (filter exceeds_threshold ps) as [|p [|q hot]]; reflexivity.
Qed.

Lemma while_running_done (cycles : list cycle) (m m' : machine) :
  while_running cycles m = (Done (Return tt), m') -> running (core m') = false.
Proof.
  revert m. induction cycles as [|c rest IH]; intros m; simpl.
  - destruct (running (core m)) eqn:Hr; intros H; inversion H; subst.
    exact Hr.
  - destruct (running (core m)) eqn:Hr.
    + destruct (loop_body c m) as [[[]|e] m1]; [apply IH | discriminate].
    + intros H. inversion H; subst. exact Hr.
Qed.

(** X13. Whenever [run] returns, the [running] flag is false and the last
    thing it did was to log [Agent stopped gracefully]. *)
Theorem run_returns_stopped (caps : capabilities) (system : string)
    (launch : outcome Popen) (cycles : list cycle) (m m' : machine) :
  run caps system launch cycles m = (Done (Return tt), m') ->
  running (core m') = false
  /\ exists earlier,
       events m' = earlier ++ [Log INFO "Agent stopped gracefully"].
Proof.
  unfold run.
  destruct ((log INFO "=== Secure AI Agent Started ===" ;;
             start_tor caps system launch) m) as [[b|e] m1]; [|discriminate].
  destruct (while_running cycles m1) as [[[[]|e]|] m2] eqn:Hw;
    try discriminate.
  intros H. inversion H; subst. split.
  - exact (while_running_done cycles m1 m2 Hw).
  - now exists (events m2).
Qed.

Lemma run_returns_stopped_witness :
  running (core (snd (run all_ready "Linux" (Raise launch_timeout)
                        (cycles_of cli_session) fresh_machine))) = false
  /\ exists earlier,
       events (snd (run all_ready "Linux" (Raise launch_timeout)
                      (cycles_of cli_session) fresh_machine))
       = earlier ++ [Log INFO "Agent stopped gracefully"].
Proof.
  apply (run_returns_stopped all_ready "Linux" (Raise launch_timeout)
           (cycles_of cli_session) fresh_machine).
  reflexivity.
Defined.

Lemma pacing_emit (ev : event) (m : machine) :
  pacing (events (emit ev m)) = pacing (events m) ++ pacing [ev].
Proof. unfold pacing. simpl events. apply filter_app. Qed.

(** An uneventful pass adds one scan and one sleep, and leaves [running]
    as it was. *)
Lemma loop_body_uneventful (c : cycle) (m : machine) :
  uneventful c = true ->
  fst (loop_body c m) = Return tt
  /\ core (other_context c (snd (loop_body c m))) = core m
  /\ pacing (events (other_context c (snd (loop_body c m))))
     = pacing (events m) ++ [ProcessIter; Sleep 60].
Proof.
  unfold uneventful. intros H.
  apply andb_true_iff in H. destruct H as [H Hstop].
  apply andb_true_iff in H. destruct H as [Hexc Hsleep].
  apply negb_true_iff in Hstop.
  destruct (sleep_raises c) as [e|] eqn:Hs; [discriminate Hsleep|].
  rewrite (loop_body_spec c m Hexc), Hs. cbv zeta.
  unfold other_context. rewrite Hstop. cbn [fst snd].
  split; [reflexivity|]. split.
  - destruct (1 <? _)%nat, (snd (scan_for (processes c) [])); reflexivity.
  - destruct (1 <? _)%nat, (snd (scan_for (processes c) []));
      repeat rewrite pacing_emit; simpl;
      rewrite ?app_nil_r, <- ?app_assoc; reflexivity.
Qed.

(** X14. As long as nobody asks it to stop (no stop request, no Ctrl+C),
    the loop does not end: after any number of passes it is still running,
    [running] is still true, and it has made exactly one scan and one
    60-second sleep per pass, in that order, whatever the scans found or
    failed on. *)
Theorem while_running_keeps_pace (cycles : list cycle) (m : machine) :
  running (core m) = true ->
  forallb uneventful cycles = true ->
  fst (while_running cycles m) = StillRunning
  /\ core (snd (while_running cycles m)) = core m
  /\ pacing (events (snd (while_running cycles m)))
     = pacing (events m)
       ++ flat_map (fun _ => [ProcessIter; Sleep 60]) cycles.
Proof.
  revert m. induction cycles as [|c rest IH]; intros m Hrun Hall; simpl.
  - rewrite Hrun. simpl. now rewrite app_nil_r.
  - simpl in Hall. apply andb_true_iff in Hall. destruct Hall as [Hc Hrest].
    rewrite Hrun.
    destruct (loop_body_uneventful c m Hc) as [Hret [Hcore Hpace]].
    destruct (loop_body c m) as [[[]|e] m1]; cbn [fst snd] in *;
      [|discriminate Hret].
    assert (Hrun1 : running (core (other_context c m1)) = true)
      by now rewrite Hcore.
    destruct (IH (other_context c m1) Hrun1 Hrest) as [H1 [H2 H3]].
    split; [exact H1|]. split; [now rewrite H2|].
    rewrite H3, Hpace. now rewrite <- app_assoc.
Qed.

Lemma while_running_keeps_pace_witness :
  fst (while_running [quiet_cycle [miner; encoder]; quiet_cycle []]
         fresh_machine) = StillRunning
  /\ pacing (events (snd (while_running
                            [quiet_cycle [miner; encoder]; quiet_cycle []]
                            fresh_machine)))
     = [ProcessIter; Sleep 60; ProcessIter; Sleep 60].
Proof.
  destruct (while_running_keeps_pace
              [quiet_cycle [miner; encoder]; quiet_cycle []] fresh_machine
              eq_refl eq_refl) as [H1 [_ H3]].
  split; [exact H1 | exact H3].
Defined.

(** X15. A pass during which a stop is requested, or whose sleep is
    interrupted by Ctrl+C, is the last one: the loop returns right after
    it with [running] false, and nothing of what would have come next (no
    further scan, no further sleep) happens.  And once [clean_exit] has
    run, the loop returns without making any pass at all. *)
Theorem stop_ends_loop (c : cycle) (rest : list cycle) (m : machine) :
  (forall cycles,
     while_running cycles (snd (clean_exit m))
     = (Done (Return tt), snd (clean_exit m)))
  /\ (running (core m) = true -> sleep_ok c = true -> stops c = true ->
      exists m',
        while_running (c :: rest) m = (Done (Return tt), m')
        /\ running (core m') = false
        /\ tor_process (core m') = tor_process (core m)
        /\ events m' = events (snd (loop_body c m))).
Proof.
  split.
  - intros cycles. now apply while_running_stopped.
  - intros Hrun Hok Hstop. simpl. rewrite Hrun.
    destruct (loop_body_sleep_ok c m Hok) as [Hret Hfalse].
    specialize (Hfalse Hstop).
    pose proof (loop_body_framed not_tor_started same_handle
                  same_handle_refl same_handle_trans same_handle_running
                  not_tor_started_other c m) as [Hh _].
    destruct (loop_body c m) as [[[]|e] m1]; cbn [fst snd] in *;
      [|discriminate Hret].
    exists (other_context c m1).
    rewrite (while_running_stopped rest _ Hfalse).
    split; [reflexivity|]. split; [exact Hfalse|]. split.
    + unfold other_context. destruct (stop_requested c); exact Hh.
    + unfold other_context. destruct (stop_requested c); reflexivity.
Qed.

Lemma stop_ends_loop_witness :
  exists m',
    while_running
      ({| processes := listing [miner];
          sleep_raises := Some (Exn KeyboardInterrupt "");
          stop_requested := false |} :: [quiet_cycle [shell]])
      fresh_machine = (Done (Return tt), m')
    /\ running (core m') = false
    /\ tor_process (core m') = tor_process (core fresh_machine)
    /\ events m'
       = events (snd (loop_body
                        {| processes := listing [miner];
                           sleep_raises := Some (Exn KeyboardInterrupt "");
                           stop_requested := false |} fresh_machine)).
Proof.
  apply (proj2 (stop_ends_loop
                  {| processes := listing [miner];
                     sleep_raises := Some (Exn KeyboardInterrupt "");
                     stop_requested := false |}
                  [quiet_cycle [shell]] fresh_machine)); reflexivity.
Defined.

Lemma start_tor_raises (caps : capabilities) (system : string)
    (launch : outcome Popen) (m : machine) (e : exn) :
  fst (start_tor caps system launch m) = Raise e ->
  TOR_READY caps = true /\ launch = Raise e /\ is_KeyboardInterrupt e = true.
Proof.
  intros H. pose proof (start_tor_raises_interrupt _ _ _ _ _ H) as Hki.
  revert H. unfold start_tor. destruct (TOR_READY caps); simpl; [|discriminate].
  unfold try_except, bind, call. simpl. destruct launch as [h|e']; simpl.
  - discriminate.
  - destruct (is_Exception e'); simpl; [discriminate|].
    intros H. inversion H; subst. now repeat split.
Qed.

(** What leaves a pass of the loop is what [time.sleep] raised, and it is
    not a [KeyboardInterrupt]. *)
Lemma loop_body_raises (c : cycle) (m : machine) (e : exn) :
  fst (loop_body c m) = Raise e ->
  sleep_raises c = Some e /\ is_KeyboardInterrupt e = false.
Proof.
  unfold loop_body, try_except, bind.
  pose proof (security_scan_raises_interrupt (processes c) m) as Hint.
  destruct (security_scan (processes c) m) as [[threats|e0] m1]; simpl in *.
  - unfold sleep_outcome, call, log, ret.
    destruct (1 <? length threats)%nat; simpl;
      (destruct (sleep_raises c) as [e1|]; simpl; [|discriminate];
       destruct (is_KeyboardInterrupt e1) eqn:E; simpl; [discriminate|];
       intros H; inversion H; subst; now split).
  - rewrite (Hint e0 eq_refl). simpl. discriminate.
Qed.

Lemma while_running_raises (cycles : list cycle) (m : machine) (e : exn) :
  fst (while_running cycles m) = Done (Raise e) ->
  exists c, In c cycles
            /\ sleep_raises c = Some e /\ is_KeyboardInterrupt e = false.
Proof.
  revert m. induction cycles as [|c rest IH]; intros m; simpl.
  - destruct (running (core m)); discriminate.
  - destruct (running (core m)); [|discriminate].
    pose proof (loop_body_raises c m) as Hb.
    destruct (loop_body c m) as [[[]|e'] m1]; simpl in *.
    + intros H. destruct (IH _ H) as [c' [Hin Hc']].
      exists c'. split; [now right | exact Hc'].
    + intros H. inversion H; subst. exists c. split; [now left|].
      now apply Hb.
Qed.



(** X16. [run] ends with an exception in two cases only: Ctrl+C hits the
    launch of the relay, or [time.sleep] raises something other than a
    [KeyboardInterrupt].  No failure of the scan, of the relay launch or of
    a process inspection ends the service. *)
Theorem run_raises (caps : capabilities) (system : string)
    (launch : outcome Popen) (cycles : list cycle) (m : machine) (e : exn) :
  fst (run caps system launch cycles m) = Done (Raise e) ->
  (TOR_READY caps = true /\ launch = Raise e /\ is_KeyboardInterrupt e = true)
  \/ (exists c, In c cycles
                /\ sleep_raises c = Some e /\ is_KeyboardInterrupt e = false).
Proof.
  unfold run, bind, log.
  pose proof (start_tor_raises caps system launch
                (emit (Log INFO "=== Secure AI Agent Started ===") m)) as Hs.
  destruct (start_tor caps system launch
              (emit (Log INFO "=== Secure AI Agent Started ===") m))
    as [[b|e'] m1]; simpl in *.
  - pose proof (while_running_raises cycles m1) as Hw.
    destruct (while_running cycles m1) as [[[[]|e']|] m2]; simpl in *;
      try discriminate.
    intros H. inversion H; subst. right. now apply Hw.
  - intros H. inversion H; subst. left. now apply Hs.
Qed.

Lemma run_raises_witness :
  (TOR_READY all_ready = true
   /\ Raise (Exn KeyboardInterrupt "") = Raise (A := Popen) (Exn KeyboardInterrupt "")
   /\ is_KeyboardInterrupt (Exn KeyboardInterrupt "") = true)
  \/ (exists c, In c [quiet_cycle [shell]]
                /\ sleep_raises c = Some (Exn KeyboardInterrupt "")
                /\ is_KeyboardInterrupt (Exn KeyboardInterrupt "") = false).
Proof.
  apply (run_raises all_ready "Linux" (Raise (Exn KeyboardInterrupt ""))
           [quiet_cycle [shell]] fresh_machine (Exn KeyboardInterrupt "")).
  reflexivity.
Defined.

(** X17. A Ctrl+C that lands during the scan ends the pass there: no
    warning is logged and the sleep is skipped, [running] is set to false,
    and the pass itself ends normally. *)
Theorem loop_body_scan_interrupted (c : cycle) (m : machine) (e : exn) :
  fst (security_scan (processes c) m) = Raise e ->
  loop_body c m = (Return tt, set_running false (emit ProcessIter m)).
Proof.
  intros H. pose proof (security_scan_raises_interrupt _ _ _ H) as Hki.
  unfold loop_body, try_except, bind. revert H. unfold security_scan.
  destruct (scan_for (processes c) []) as [threats [e'|]]; simpl.
  - destruct (is_Exception e'); simpl; [discriminate|].
    intros H. inversion H; subst. now rewrite Hki.
  - discriminate.
Qed.

Lemma loop_body_scan_interrupted_witness :
  loop_body
    {| processes := {| yielded := [Return (info_of miner)];
                       failure := Some (Exn KeyboardInterrupt "") |};
       sleep_raises := None; stop_requested := false |} fresh_machine
  = (Return tt, set_running false (emit ProcessIter fresh_machine)).
Proof.
  apply (loop_body_scan_interrupted
           {| processes := {| yielded := [Return (info_of miner)];
                              failure := Some (Exn KeyboardInterrupt "") |};
              sleep_raises := None; stop_requested := false |}
           fresh_machine (Exn KeyboardInterrupt "")).
  reflexivity.
Defined.

(** ** cli_main and the launcher *)






(** ** The text of a finding *)

Lemma to_int_proper (z : Z) :
  Z.to_int z <> Decimal.Pos Decimal.Nil /\ Z.to_int z <> Decimal.Neg Decimal.Nil.
Proof.
  destruct z as [|p|p]; simpl; split; try discriminate;
    intros H; inversion H as [Hp];
    exact (DecimalPos.Unsigned.to_uint_nonnil p Hp).
Qed.

Lemma append_cancel_l (s t t' : string) :
  (s ++ t)%string = (s ++ t')%string -> t = t'.
Proof.
  induction s as [|a s IH]; simpl; intros H; [exact H|].
  inversion H. now apply IH.
Qed.

Lemma append_cancel_last (a : ascii) (t t' : string) :
  (t ++ String a "")%string = (t' ++ String a "")%string -> t = t'.
Proof.
  revert t'. induction t as [|b t IH]; intros [|b' t']; simpl; intros H.
  - reflexivity.
  - inversion H as [[Hb Ht]]. destruct t'; discriminate Ht.
  - inversion H as [[Hb Ht]]. destruct t; discriminate Ht.
  - inversion H as [[Hb Ht]]. f_equal. now apply IH.
Qed.

(** X20. The pid printed in a finding reads back as the pid, so two
    processes of the same name with different pids never get the same
    line. *)
Theorem finding_tells_pid (z : Z) :
  int_of_str (str_int z) = Some z
  /\ (forall a b n ca cb,
        high_cpu {| pid := a; name := n; cpu_percent := ca |}
        = high_cpu {| pid := b; name := n; cpu_percent := cb |} ->
        a = b).
Proof.
  assert (Hback : forall x, int_of_str (str_int x) = Some x).
  { intros x. unfold int_of_str, str_int.
    destruct (to_int_proper x) as [Hp Hn].
    rewrite (NilZero.isi _ Hp Hn). simpl. now rewrite DecimalZ.of_to. }
  split; [apply Hback|].
  intros a b n ca cb H. unfold high_cpu in H. simpl in H.
  apply (append_cancel_l "High CPU: ") in H.
  apply append_cancel_l in H.
  apply (append_cancel_l " (PID: ") in H.
  apply append_cancel_last in H.
  pose proof (Hback a) as Ha. rewrite H, Hback in Ha. now inversion Ha.
Qed.

(** ** run_scan *)

Lemma shown_emit (ev : event) (m : machine) :
  shown (events (emit ev m)) = shown (events m) ++ shown [ev].
Proof. unfold shown. simpl events. apply flat_map_app. Qed.

Lemma join_lines_nonempty (l : string) (ls : list string) :
  l <> "" -> join_lines (l :: ls) <> "".
Proof.
  intros Hl. unfold join_lines. simpl.
  destruct ls as [|l' ls]; [exact Hl|].
  destruct l; [contradiction | discriminate].
Qed.

(** X21. The tray's scan always tells the user something: whatever the
    enumeration does short of a Ctrl+C, [run_scan] ends normally having
    shown exactly one message, titled [System Scan], and its text is not
    empty. *)
Theorem run_scan_shows (en : enumeration) (m : machine) :
  raises_only_Exception en = true ->
  fst (run_scan en m) = Return tt
  /\ exists text,
       shown (events (snd (run_scan en m)))
       = shown (events m) ++ [("System Scan", text)]
       /\ text <> "".
Proof.
  intros H. unfold run_scan, bind, show_message, call.
  rewrite (security_scan_returns en m H). cbn [fst snd].
  split; [reflexivity|].
  exists (join_lines (threats_or_default (fst (scan_for en [])))). split.
  - rewrite shown_emit.
    destruct (snd (scan_for en [])); repeat rewrite shown_emit; simpl;
      now rewrite ?app_nil_r.
  - assert (Hfst : fst (scan_for en []) = fst (scan_processes (yielded en) [])).
    { unfold scan_for.
      now destruct (scan_processes (yielded en) []) as [t [e|]]. }
    rewrite Hfst.
    pose proof (scan_processes_sound (yielded en) (yielded en) []
                  (incl_refl _) (Forall_nil _)) as Hsound.
    destruct (fst (scan_processes (yielded en) [])) as [|l ls]; simpl.
    + discriminate.
    + apply join_lines_nonempty. inversion Hsound as [|? ? [info [_ [_ Hl]]] _].
      subst l. discriminate.
Qed.

Lemma run_scan_shows_witness :
  fst (run_scan host_api_down fresh_machine) = Return tt
  /\ exists text,
       shown (events (snd (run_scan host_api_down fresh_machine)))
       = shown (events fresh_machine) ++ [("System Scan", text)]
       /\ text <> "".
Proof.
  apply (run_scan_shows host_api_down fresh_machine). reflexivity.
Defined.

(** ** The loop and the relay *)

(** X22. The service loop never touches the relay: over any passes,
    whatever happens in them, the handle [tor_process] stays what it was,
    the trace only grows, and no relay start is logged. *)
Theorem while_running_keeps_handle (cycles : list cycle) (m : machine) :
  tor_process (core (snd (while_running cycles m))) = tor_process (core m)
  /\ exists more,
       events (snd (while_running cycles m)) = events m ++ more
       /\ ~ In (Log INFO "TOR started successfully") more.
Proof.
  destruct (while_running_within not_tor_started same_handle
              same_handle_refl same_handle_trans same_handle_running
              not_tor_started_other cycles m) as [Hh [more [Hev Hmore]]].
  split; [exact Hh|]. exists more. split; [exact Hev|].
  intros Hin. rewrite Forall_forall in Hmore. exact (Hmore _ Hin eq_refl).
Qed.
